(** * print_idx_file: reader for xtream index files

    A shallow embedding of [src/bin/print_idx_file.py].  The script opens a
    binary file, reads it in chunks of 8 bytes, unpacks every full chunk as
    two little-endian unsigned 32-bit integers and prints them as
    [<first> : <last>].

    Layout of this development:
    - [Py]: the Python built-ins the script calls ([str] of an int, [repr]
      of a bytes object, [struct.unpack("<II", _)], buffered binary
      [file.read], [os.path.basename]);
    - the effect monad [M]: output streams as state, exceptions, and fuel
      exhaustion standing for a loop that never returns;
    - the script itself: [read_loop], [print_u32_values], [main] and the
      interpreter top level [run_script];
    - the properties of the script. *)

From Stdlib Require Import String Ascii List NArith PeanoNat Bool Lia.
From Stdlib Require Import Strings.Byte DecimalString DecimalN.
Import ListNotations.

Local Open Scope string_scope.
Local Open Scope list_scope.

(* ================================================================== *)
(** ** Python built-ins used by the script *)
(* ================================================================== *)

Module Py.

(** A [bytes] object. *)
Definition bytes := list byte.

(** [str(n)] / [f"{n}"] for a non-negative [int]: decimal digits, no sign,
    no leading zeros, ["0"] for zero. *)
Definition str_of_int (n : N) : string :=
  NilEmpty.string_of_uint (N.to_uint n).

(** Unsigned little-endian value of a byte string: the first byte is the
    least significant one. *)
Fixpoint le_uint (bs : bytes) : N :=
  match bs with
  | [] => 0
  | b :: rest => Byte.to_N b + 256 * le_uint rest
  end.

(** [struct.unpack("<II", chunk)]: two unsigned 32-bit little-endian
    integers, bytes 0..3 and bytes 4..7.  [None] stands for [struct.error],
    raised when the buffer is not exactly 8 bytes long. *)
Definition unpack_II (chunk : bytes) : option (N * N) :=
  if Nat.eqb (length chunk) 8
  then Some (le_uint (firstn 4 chunk), le_uint (skipn 4 chunk))
  else None.

(** *** [repr] of a bytes object *)

Definition squote : ascii := "'"%char.
Definition dquote : ascii := "034"%char.
Definition backslash : ascii := "\"%char.

Definition hexdigits : list ascii :=
  list_ascii_of_string "0123456789abcdef".

Definition hexdigit (n : N) : ascii :=
  nth (N.to_nat n) hexdigits "0"%char.

Definition byte_is (c : byte) (a : ascii) : bool :=
  Ascii.eqb (ascii_of_byte c) a.

(** The quote character: a single quote, unless the bytes hold a single
    quote and no double quote. *)
Definition repr_quote (bs : bytes) : ascii :=
  if existsb (fun c => byte_is c squote) bs
     && negb (existsb (fun c => byte_is c dquote) bs)
  then dquote else squote.

(** One byte inside the quotes. *)
Definition repr_byte (quote : ascii) (c : byte) : string :=
  let n := Byte.to_N c in
  if byte_is c quote || byte_is c backslash
  then String backslash (String (ascii_of_byte c) EmptyString)
  else if N.eqb n 9 then "\t"
  else if N.eqb n 10 then "\n"
  else if N.eqb n 13 then "\r"
  else if N.ltb n 32 || N.leb 127 n
  then String backslash
         (String "x" (String (hexdigit (N.div n 16))
                         (String (hexdigit (N.modulo n 16)) EmptyString)))
  else String (ascii_of_byte c) EmptyString.

(** [repr(bs)] and so [str(bs)]: [b'...']. *)
Definition bytes_repr (bs : bytes) : string :=
  let quote := repr_quote bs in
  String "b"
    (String quote
       (String.concat "" (map (repr_byte quote) bs)
          ++ String quote EmptyString)).

(** *** Buffered binary files

    The object returned by [open(path, "rb")] on a regular file: the
    content and the read cursor.  [file.read(n)] returns the next [n]
    bytes, or all that are left when fewer than [n] remain, and moves the
    cursor past the bytes it returned; at the end of the file it returns
    the empty bytes object. *)
Record file := mkFile { f_data : bytes; f_pos : nat }.

Definition file_read (n : nat) (f : file) : bytes * file :=
  let chunk := firstn n (skipn (f_pos f) (f_data f)) in
  (chunk, mkFile (f_data f) (f_pos f + length chunk)).

(** Truth value of a bytes object: false exactly when it is empty. *)
Definition truthy (bs : bytes) : bool :=
  match bs with [] => false | _ :: _ => true end.

(** *** [os.path.basename] on POSIX: what follows the last slash. *)
Fixpoint basename_from (acc : string) (s : string) : string :=
  match s with
  | EmptyString => acc
  | String c rest =>
      if Ascii.eqb c "/"%char
      then basename_from EmptyString rest
      else basename_from (acc ++ String c EmptyString) rest
  end.

Definition basename (s : string) : string := basename_from EmptyString s.

End Py.

Import Py.

(* ================================================================== *)
(** ** Effects: output streams, exceptions, the file system *)
(* ================================================================== *)

(** What [open(path, "rb")] finds at a path. *)
Inductive entry : Type :=
| RegularFile (content : bytes)   (* opens *)
| NoSuchFile                      (* raises FileNotFoundError *)
| Unopenable.                     (* raises another OSError: permission
                                     denied, is a directory, ... *)

Definition filesystem := string -> entry.

(** The exceptions that occur in the script. *)
Inductive exn : Type :=
| FileNotFoundError (path : string)
| OSError (path : string)
| NameError (name : string)
| IndexError
| StructError
| SystemExit (code : N).

(** The two output streams; each element is the text of one [print] call
    (which ends it with a newline). *)
Record world := mkWorld { w_stdout : list string; w_stderr : list string }.

Definition empty_world : world := mkWorld [] [].

(** Result of a computation: a value, a raised exception, or [Diverged]
    when the fuel of a loop ran out. *)
Inductive result (A : Type) : Type :=
| Done (a : A)
| Raised (e : exn)
| Diverged.

Arguments Done {A} a.
Arguments Raised {A} e.
Arguments Diverged {A}.

Definition M (A : Type) : Type := world -> result A * world.

Definition ret {A} (a : A) : M A := fun w => (Done a, w).

Definition bind {A B} (m : M A) (k : A -> M B) : M B :=
  fun w =>
    match m w with
    | (Done a, w') => k a w'
    | (Raised e, w') => (Raised e, w')
    | (Diverged, w') => (Diverged, w')
    end.

Definition raise {A} (e : exn) : M A := fun w => (Raised e, w).

Definition diverge {A} : M A := fun w => (Diverged, w).

Notation "x <- m ;; k" := (bind m (fun x => k))
  (at level 61, m at next level, right associativity).
Notation "m ;; k" := (bind m (fun _ => k))
  (at level 61, right associativity).

(** [print(s)]: the default stream is [sys.stdout]. *)
Definition print (s : string) : M unit :=
  fun w => (Done tt, mkWorld (w_stdout w ++ [s]) (w_stderr w)).

(** [try: body except <handled>: handler]: [handler e] is [None] for an
    exception the clause does not match. *)
Definition try_except {A} (body : M A) (handler : exn -> option (M A)) : M A :=
  fun w =>
    match body w with
    | (Raised e, w') =>
        match handler e with
        | Some h => h w'
        | None => (Raised e, w')
        end
    | r => r
    end.

(** Lifting of [struct.unpack]. *)
Definition unpack (chunk : bytes) : M (N * N) :=
  match unpack_II chunk with
  | Some p => ret p
  | None => raise StructError
  end.

(** The names bound at module level when the [__main__] block runs: the
    two imports of the script and its one function. *)
Definition module_globals : list string :=
  ["sys"; "struct"; "print_u32_values"].

(** Evaluation of a global name: [NameError] when it is not bound. *)
Definition load_global (name : string) : M unit :=
  if existsb (String.eqb name) module_globals
  then ret tt
  else raise (NameError name).

(** [sys.argv[i]]. *)
Definition argv_get (argv : list string) (i : nat) : M string :=
  match nth_error argv i with
  | Some s => ret s
  | None => raise IndexError
  end.

(* ================================================================== *)
(** ** The script *)
(* ================================================================== *)

Section Script.

Variable fs : filesystem.

(** [open(file_path, "rb")]. *)
Definition open_rb (file_path : string) : M file :=
  match fs file_path with
  | RegularFile content => ret (mkFile content 0)
  | NoSuchFile => raise (FileNotFoundError file_path)
  | Unopenable => raise (OSError file_path)
  end.

(** The text of a record line, [f"{first_u32} : {last_u32}"]. *)
Definition record_text (first_u32 last_u32 : N) : string :=
  str_of_int first_u32 ++ " : " ++ str_of_int last_u32.

(** The text of [print("Incomplete chunk:", chunk)]: the arguments
    separated by one space. *)
Definition incomplete_text (chunk : bytes) : string :=
  "Incomplete chunk:" ++ " " ++ bytes_repr chunk.

(** The [while True] loop of [print_u32_values].  One unit of fuel is one
    iteration; the loop of the script has no bound, so running out of fuel
    is [Diverged]. *)
Fixpoint read_loop (fuel : nat) (file : file) : M unit :=
  match fuel with
  | O => diverge
  | S fuel' =>
      let (chunk, file') := file_read 8 file in
      if negb (truthy chunk) then ret tt
      else if Nat.eqb (length chunk) 8 then
             p <- unpack chunk ;;
             print (record_text (fst p) (snd p)) ;;
             read_loop fuel' file'
           else
             print (incomplete_text chunk) ;;
             read_loop fuel' file'
  end.

(** The text of [f"Error: File '{file_path}' not found"]. *)
Definition not_found_text (file_path : string) : string :=
  "Error: File '" ++ file_path ++ "' not found".

(** [print_u32_values(file_path)]: the [try] block holds the [open] and
    the loop; the one [except] clause is for [FileNotFoundError]. *)
Definition print_u32_values (fuel : nat) (file_path : string) : M unit :=
  try_except
    (file <- open_rb file_path ;; read_loop fuel file)
    (fun e =>
       match e with
       | FileNotFoundError _ => Some (print (not_found_text file_path))
       | _ => None
       end).

(** The [if __name__ == "__main__"] block.  The usage text is an ordinary
    string literal, not an f-string. *)
Definition main (fuel : nat) (argv : list string) : M unit :=
  if negb (Nat.eqb (length argv) 2) then
    load_global "os" ;;
    arg0 <- argv_get argv 0 ;;
    let script_name := basename arg0 in
    print "Usage: {script_name} <file_name>" ;;
    raise (SystemExit 1)
  else
    file_path <- argv_get argv 1 ;;
    print_u32_values fuel file_path.

End Script.

(** ** The interpreter top level *)

(** Last line of the traceback the interpreter writes for an uncaught
    exception: the name of the exception and its message (the frame lines
    before it are left out, and newer interpreters add a hint to some
    messages).  For [OSError] the text stands for the line of whichever
    subclass [open] raised, with its errno and message
    ([PermissionError: [Errno 13] ...], [IsADirectoryError: [Errno 21]
    ...]); [Unopenable] does not tell them apart and no property below
    depends on this text. *)
Definition traceback (e : exn) : string :=
  match e with
  | FileNotFoundError p =>
      "FileNotFoundError: [Errno 2] No such file or directory: '" ++ p ++ "'"
  | OSError p => "OSError: '" ++ p ++ "'"
  | NameError n => "NameError: name '" ++ n ++ "' is not defined"
  | IndexError => "IndexError: list index out of range"
  | StructError => "struct.error: unpack requires a buffer of 8 bytes"
  | SystemExit _ => ""
  end.

(** What a run of the script leaves behind. *)
Record outcome := mkOutcome {
  out_stdout : list string;
  out_stderr : list string;
  out_status : N;
  out_uncaught : option exn
}.

(** Running the script as a process: status 0 when [main] returns, the
    code of [sys.exit], and a traceback on the error stream with status 1
    for any other exception.  [None] when the fuel does not suffice. *)
Definition run_script (fuel : nat) (fs : filesystem) (argv : list string)
  : option outcome :=
  match main fs fuel argv empty_world with
  | (Done _, w) => Some (mkOutcome (w_stdout w) (w_stderr w) 0 None)
  | (Raised (SystemExit code), w) =>
      Some (mkOutcome (w_stdout w) (w_stderr w) code None)
  | (Raised e, w) =>
      Some (mkOutcome (w_stdout w) (w_stderr w ++ [traceback e]) 1 (Some e))
  | (Diverged, _) => None
  end.

(** A file system holding one regular file. *)
Definition single_file (path : string) (content : bytes) : filesystem :=
  fun p => if String.eqb p path then RegularFile content else NoSuchFile.

(* ================================================================== *)
(** ** Expected output, stated on the bytes of the file *)
(* ================================================================== *)

(** Bytes [i, i+n) of [data]. *)
Definition slice (data : bytes) (i n : nat) : bytes :=
  firstn n (skipn i data).

(** The line of record [k]: [first] decoded from bytes [8k, 8k+4) and
    [last] from bytes [8k+4, 8k+8). *)
Definition record_line (data : bytes) (k : nat) : string :=
  record_text (le_uint (slice data (8 * k) 4))
              (le_uint (slice data (8 * k + 4) 4)).

(** The lines of records [0 .. count-1], in file order. *)
Definition record_lines (data : bytes) (count : nat) : list string :=
  map (record_line data) (seq 0 count).

(** The bytes after the last complete record. *)
Definition leftover (data : bytes) : bytes :=
  skipn (8 * (length data / 8)) data.

(** The diagnostic for a trailing partial chunk, if there is one. *)
Definition tail_lines (data : bytes) : list string :=
  if Nat.eqb (length data mod 8) 0 then []
  else [incomplete_text (leftover data)].

(** Iterations the loop makes on a file: one per complete record, one for
    a partial chunk, and the last one, whose read is empty. *)
Definition iterations (data : bytes) : nat :=
  length data / 8 + (if Nat.eqb (length data mod 8) 0 then 0 else 1) + 1.

(** Standard output with one more line. *)
Definition emit (w : world) (s : string) : world :=
  mkWorld (w_stdout w ++ [s]) (w_stderr w).

(** Standard output with several more lines. *)
Definition emit_all (w : world) (ls : list string) : world :=
  mkWorld (w_stdout w ++ ls) (w_stderr w).

(** Iterations still to make when the cursor is at the start of the last,
    possibly partial, chunk. *)
Definition tail_iterations (data : bytes) : nat :=
  (if Nat.eqb (length data mod 8) 0 then 0 else 1) + 1.

(* ================================================================== *)
(** ** Writing records: the inverse of the decoding *)
(* ================================================================== *)

(** The byte with value [n mod 256]. *)
Definition byte_of_N (n : N) : byte :=
  match Byte.of_N (n mod 256) with
  | Some b => b
  | None => x00
  end.

(** The [k] low bytes of [n], least significant first. *)
Fixpoint le_bytes (k : nat) (n : N) : bytes :=
  match k with
  | O => []
  | S k' => byte_of_N n :: le_bytes k' (n / 256)
  end.

(** An IndexRecord as its producer writes it, [struct.pack("<II", first,
    last)]: each field a 32-bit unsigned integer in little-endian byte
    order, [first] at offset 0 and [last] at offset 4. *)
Definition pack_II (first last : N) : bytes :=
  le_bytes 4 first ++ le_bytes 4 last.

(** A sequence of records, one after the other. *)
Definition encode_records (pairs : list (N * N)) : bytes :=
  List.concat (map (fun p => pack_II (fst p) (snd p)) pairs).

(** The values an unsigned 32-bit field can hold. *)
Definition is_u32 (n : N) : Prop := (n < 4294967296)%N.

Definition all_u32 (pairs : list (N * N)) : Prop :=
  Forall (fun p => is_u32 (fst p) /\ is_u32 (snd p)) pairs.

(** The line that shows a pair. *)
Definition pair_text (p : N * N) : string := record_text (fst p) (snd p).

(** Whether a string holds a space. *)
Fixpoint has_space (s : string) : bool :=
  match s with
  | EmptyString => false
  | String c rest => Ascii.eqb c " "%char || has_space rest
  end.

(* ================================================================== *)
(** ** The record format in the words of the specification *)
(* ================================================================== *)

(** These definitions say what a record and its line are without the
    definitions of the script: they are what the output is compared
    with. *)

(** Byte [i] of a file, as a number. *)
Definition byte_at (data : bytes) (i : nat) : N :=
  Byte.to_N (nth i data x00).

(** "A 32-bit unsigned integer stored in little-endian byte order": the
    four bytes from offset [i], the first one the least significant. *)
Definition spec_u32_le (data : bytes) (i : nat) : N :=
  (byte_at data i
   + 256 * byte_at data (i + 1)
   + 65536 * byte_at data (i + 2)
   + 16777216 * byte_at data (i + 3))%N.

(** The value of a decimal digit. *)
Definition digit_value (c : ascii) : option N :=
  let n := N_of_ascii c in
  if N.leb 48 n && N.leb n 57 then Some (n - 48)%N else None.

(** The number that a string of decimal digits writes, the digits read so
    far being worth [acc]; [None] when a character is not a digit. *)
Fixpoint digits_value (s : string) (acc : N) : option N :=
  match s with
  | EmptyString => Some acc
  | String c rest =>
      match digit_value c with
      | Some d => digits_value rest (10 * acc + d)
      | None => None
      end
  end.

(** "Decimal representation": [s] is the decimal text of [n], at least
    one digit, digits only, worth [n], and no zero in front of another
    digit. *)
Definition is_decimal_of (s : string) (n : N) : Prop :=
  s <> EmptyString
  /\ digits_value s 0 = Some n
  /\ (forall rest, s = String "0" rest -> rest = EmptyString).

(** "Formatted as [<first> : <last>]": the two decimal texts with a
    space, a colon and a space between them. *)
Definition is_spec_line (l : string) (first last : N) : Prop :=
  exists s1 s2,
    l = (s1 ++ " : " ++ s2)%string
    /\ is_decimal_of s1 first
    /\ is_decimal_of s2 last.

(** The number that a list of decimal digits writes after [acc]. *)
Fixpoint uint_value (d : Decimal.uint) (acc : N) : N :=
  match d with
  | Decimal.Nil => acc
  | Decimal.D0 r => uint_value r (10 * acc + 0)
  | Decimal.D1 r => uint_value r (10 * acc + 1)
  | Decimal.D2 r => uint_value r (10 * acc + 2)
  | Decimal.D3 r => uint_value r (10 * acc + 3)
  | Decimal.D4 r => uint_value r (10 * acc + 4)
  | Decimal.D5 r => uint_value r (10 * acc + 5)
  | Decimal.D6 r => uint_value r (10 * acc + 6)
  | Decimal.D7 r => uint_value r (10 * acc + 7)
  | Decimal.D8 r => uint_value r (10 * acc + 8)
  | Decimal.D9 r => uint_value r (10 * acc + 9)
  end.

(* ================================================================== *)
(** ** Sample files *)
(* ================================================================== *)

(** One record, [(1, 2)]. *)
Definition one_record : bytes :=
  [x01; x00; x00; x00; x02; x00; x00; x00].

(** Two records, [(0xFFFFFFFF, 0)] and [(1, 1)]. *)
Definition two_records : bytes :=
  [xff; xff; xff; xff; x00; x00; x00; x00;
   x01; x00; x00; x00; x01; x00; x00; x00].

(** A single partial record of 5 bytes. *)
Definition five_bytes : bytes := [x01; x02; x03; x04; x05].

(** One record and 3 bytes more. *)
Definition eleven_bytes : bytes := one_record ++ [xaa; xbb; xcc].

(** One record and 4 bytes more: a letter, a newline, a backslash and a
    high byte. *)
Definition record_and_tail : bytes := one_record ++ [x41; x0a; x5c; xff].

(** [sys.argv[0]] of the samples. *)
Definition script : string := "print_idx_file.py".

(* ================================================================== *)
(** ** Reading the output back *)
(* ================================================================== *)

(** Whether every character of a text is printable ASCII (codes 32 to
    126); such a text holds no newline. *)
Fixpoint printable (s : string) : bool :=
  match s with
  | EmptyString => true
  | String c rest =>
      N.leb 32 (N_of_ascii c) && N.leb (N_of_ascii c) 126 && printable rest
  end.

(** The position of a character in [hexdigits]. *)
Fixpoint index_of (a : ascii) (l : list ascii) : N :=
  match l with
  | [] => 0
  | x :: rest => if Ascii.eqb a x then 0 else N.succ (index_of a rest)
  end.

Definition hex_value (a : ascii) : N := index_of a hexdigits.

(** The inverse of [repr_byte], on the front of a text: the byte that the
    first escape or character stands for, and the text after it.  [None]
    at the closing quote and at the end of the text. *)
Definition repr_head (quote : ascii) (s : string) : option (byte * string) :=
  match s with
  | EmptyString => None
  | String c rest =>
      if Ascii.eqb c backslash then
        match rest with
        | EmptyString => None
        | String e rest' =>
            if Ascii.eqb e "x"%char then
              match rest' with
              | String h (String l rest'') =>
                  Some (byte_of_N (16 * hex_value h + hex_value l), rest'')
              | _ => None
              end
            else if Ascii.eqb e "t"%char then Some (x09, rest')
            else if Ascii.eqb e "n"%char then Some (x0a, rest')
            else if Ascii.eqb e "r"%char then Some (x0d, rest')
            else Some (byte_of_ascii e, rest')
        end
      else if Ascii.eqb c quote then None
      else Some (byte_of_ascii c, rest)
  end.

(** The texts that are record lines. *)
Definition is_record_text (l : string) : Prop :=
  exists a b, l = record_text a b.

(** The body of a [repr]: the escapes of the bytes, without the quotes. *)
Definition repr_body (quote : ascii) (bs : bytes) : string :=
  String.concat "" (map (repr_byte quote) bs).

(* ================================================================== *)
(** ** The read loop *)
(* ================================================================== *)

(** Division by 8 stated through quotient and remainder. *)
Lemma div8_spec (n : nat) : n = 8 * (n / 8) + n mod 8 /\ n mod 8 < 8.
Proof.
  split.
  - apply Nat.div_mod_eq.
  - apply Nat.mod_upper_bound. discriminate.
Qed.

Lemma div8_unique (n q r : nat) :
  n = 8 * q + r -> r < 8 -> n / 8 = q /\ n mod 8 = r.
Proof.
  intros Hn Hr. destruct (div8_spec n) as [E B].
  assert (n / 8 = q) by lia. split; [assumption | lia].
Qed.

(** *** One read *)

Lemma slice_length (data : bytes) (p n : nat) :
  p + n <= length data -> length (slice data p n) = n.
Proof.
  intros H. unfold slice. rewrite length_firstn, length_skipn. lia.
Qed.

Lemma read_full (data : bytes) (p : nat) :
  p + 8 <= length data ->
  file_read 8 (mkFile data p) = (slice data p 8, mkFile data (p + 8)).
Proof.
  intros H. unfold file_read. cbn [f_pos f_data].
  fold (slice data p 8). now rewrite slice_length.
Qed.

Lemma read_short (data : bytes) (p : nat) :
  length data < p + 8 ->
  file_read 8 (mkFile data p)
  = (skipn p data, mkFile data (p + (length data - p))).
Proof.
  intros H. unfold file_read. cbn [f_pos f_data].
  rewrite firstn_all2 by (rewrite length_skipn; lia).
  now rewrite length_skipn.
Qed.

Lemma slice_low (data : bytes) (p : nat) :
  firstn 4 (slice data p 8) = slice data p 4.
Proof. unfold slice. now rewrite firstn_firstn. Qed.

Lemma slice_high (data : bytes) (p : nat) :
  skipn 4 (slice data p 8) = slice data (p + 4) 4.
Proof.
  unfold slice. rewrite skipn_firstn_comm, skipn_skipn.
  now rewrite (Nat.add_comm 4 p).
Qed.

Lemma unpack_slice (data : bytes) (p : nat) :
  p + 8 <= length data ->
  unpack_II (slice data p 8)
  = Some (le_uint (slice data p 4), le_uint (slice data (p + 4) 4)).
Proof.
  intros H. unfold unpack_II.
  rewrite slice_length by assumption. cbn [Nat.eqb].
  now rewrite slice_low, slice_high.
Qed.

Lemma truthy_length (bs : bytes) : truthy bs = negb (Nat.eqb (length bs) 0).
Proof. now destruct bs. Qed.

(** *** One iteration *)

(** A full chunk: the record line is printed and the loop goes on 8 bytes
    further. *)
Lemma read_loop_record (fuel : nat) (data : bytes) (p : nat) (w : world) :
  p + 8 <= length data ->
  read_loop (S fuel) (mkFile data p) w
  = read_loop fuel (mkFile data (p + 8))
      (emit w (record_text (le_uint (slice data p 4))
                           (le_uint (slice data (p + 4) 4)))).
Proof.
  intros H. cbn [read_loop]. rewrite (read_full _ _ H).
  rewrite truthy_length, slice_length by assumption. cbn [Nat.eqb negb].
  unfold unpack. rewrite (unpack_slice _ _ H). reflexivity.
Qed.

(** A partial chunk: the diagnostic is printed and the loop goes on with
    the cursor at the end of the file. *)
Lemma read_loop_partial (fuel : nat) (data : bytes) (p : nat) (w : world) :
  p < length data < p + 8 ->
  read_loop (S fuel) (mkFile data p) w
  = read_loop fuel (mkFile data (length data))
      (emit w (incomplete_text (skipn p data))).
Proof.
  intros [Hlo Hhi]. cbn [read_loop]. rewrite (read_short _ _ Hhi).
  rewrite truthy_length, length_skipn.
  replace (p + (length data - p)) with (length data) by lia.
  destruct (Nat.eqb_spec (length data - p) 0) as [E|_]; [lia|].
  destruct (Nat.eqb_spec (length data - p) 8) as [E|_]; [lia|].
  reflexivity.
Qed.

(** An empty read: the loop is left. *)
Lemma read_loop_eof (fuel : nat) (data : bytes) (p : nat) (w : world) :
  length data <= p ->
  read_loop (S fuel) (mkFile data p) w = (Done tt, w).
Proof.
  intros H. cbn [read_loop]. rewrite read_short by lia.
  rewrite skipn_all2 by assumption. reflexivity.
Qed.

(** *** The whole loop *)

Lemma emit_all_nil (w : world) : emit_all w [] = w.
Proof. destruct w. unfold emit_all. cbn. now rewrite app_nil_r. Qed.

Lemma emit_all_cons (w : world) (s : string) (ls : list string) :
  emit_all (emit w s) ls = emit_all w (s :: ls).
Proof. unfold emit_all, emit. cbn. now rewrite <- app_assoc. Qed.

Lemma iterations_split (data : bytes) :
  iterations data = length data / 8 + tail_iterations data.
Proof. unfold iterations, tail_iterations. lia. Qed.

(** From the end of the last complete record. *)
Lemma read_loop_tail (data : bytes) (fuel : nat) (w : world) :
  tail_iterations data <= fuel ->
  read_loop fuel (mkFile data (8 * (length data / 8))) w
  = (Done tt, emit_all w (tail_lines data)).
Proof.
  unfold tail_iterations, tail_lines, leftover.
  destruct (div8_spec (length data)) as [E B].
  destruct (Nat.eqb_spec (length data mod 8) 0) as [Z|NZ]; intros Hf.
  - destruct fuel as [|fuel]; [lia|].
    rewrite read_loop_eof by lia. now rewrite emit_all_nil.
  - destruct fuel as [|[|fuel]]; try lia.
    rewrite read_loop_partial by lia.
    rewrite read_loop_eof by lia.
    reflexivity.
Qed.

(** From the start of record [k], with [m] complete records ahead. *)
Lemma read_loop_from (m : nat) :
  forall (k : nat) (data : bytes) (fuel : nat) (w : world),
    k + m = length data / 8 ->
    m + tail_iterations data <= fuel ->
    read_loop fuel (mkFile data (8 * k)) w
    = (Done tt,
       emit_all w (map (record_line data) (seq k m) ++ tail_lines data)).
Proof.
  induction m as [|m IH]; intros k data fuel w Hk Hf.
  - rewrite Nat.add_0_r in Hk. subst k. cbn [seq map app].
    apply read_loop_tail. lia.
  - destruct fuel as [|fuel]; [lia|].
    destruct (div8_spec (length data)) as [E B].
    rewrite read_loop_record by lia.
    replace (8 * k + 8) with (8 * S k) by lia.
    rewrite IH by lia.
    cbn [seq map app]. now rewrite emit_all_cons.
Qed.

(** With less fuel than iterations the loop is still running. *)
Lemma read_loop_short_of_fuel (m : nat) :
  forall (k : nat) (data : bytes) (fuel : nat) (w : world),
    k + m = length data / 8 ->
    fuel < m + tail_iterations data ->
    fst (read_loop fuel (mkFile data (8 * k)) w) = Diverged.
Proof.
  induction m as [|m IH]; intros k data fuel w Hk Hf.
  - rewrite Nat.add_0_r in Hk. subst k.
    destruct fuel as [|fuel]; [reflexivity|].
    unfold tail_iterations in Hf.
    destruct (div8_spec (length data)) as [E B].
    destruct (Nat.eqb_spec (length data mod 8) 0) as [Z|NZ]; [lia|].
    assert (fuel = 0) by lia. subst fuel.
    rewrite read_loop_partial by lia. reflexivity.
  - destruct fuel as [|fuel]; [reflexivity|].
    destruct (div8_spec (length data)) as [E B].
    rewrite read_loop_record by lia.
    replace (8 * k + 8) with (8 * S k) by lia.
    apply IH; lia.
Qed.

(** The loop on a freshly opened file. *)
Theorem read_loop_total (data : bytes) (fuel : nat) (w : world) :
  iterations data <= fuel ->
  read_loop fuel (mkFile data 0) w
  = (Done tt,
     emit_all w (record_lines data (length data / 8) ++ tail_lines data)).
Proof.
  intros Hf. rewrite iterations_split in Hf.
  unfold record_lines.
  exact (read_loop_from (length data / 8) 0 data fuel w eq_refl Hf).
Qed.

Theorem read_loop_exact (data : bytes) (fuel : nat) (w : world) :
  fuel < iterations data ->
  fst (read_loop fuel (mkFile data 0) w) = Diverged.
Proof.
  intros Hf. rewrite iterations_split in Hf.
  exact (read_loop_short_of_fuel (length data / 8) 0 data fuel w eq_refl Hf).
Qed.

(** The monad steps the loop is made of. *)
Lemma bind_ret {A B} (a : A) (k : A -> M B) (w : world) :
  bind (ret a) k w = k a w.
Proof. reflexivity. Qed.

Lemma bind_print {B} (s : string) (k : unit -> M B) (w : world) :
  bind (print s) k w = k tt (emit w s).
Proof. reflexivity. Qed.

(** Whatever the file and the fuel, the loop raises no exception and
    only appends to standard output. *)
Lemma read_loop_appends (fuel : nat) :
  forall (f : file) (w : world),
  exists ls : list string,
    read_loop fuel f w = (Done tt, emit_all w ls)
    \/ read_loop fuel f w = (Diverged, emit_all w ls).
Proof.
  induction fuel as [|fuel IH]; intros f w.
  - exists []. right. now rewrite emit_all_nil.
  - cbn [read_loop]. destruct (file_read 8 f) as [chunk f'].
    destruct (truthy chunk); cbn [negb].
    + destruct (Nat.eqb_spec (length chunk) 8) as [E|NE].
      * unfold unpack, unpack_II. rewrite E. cbn [Nat.eqb].
        rewrite bind_ret, bind_print. cbn [fst snd].
        set (s := record_text _ _).
        destruct (IH f' (emit w s)) as [ls H].
        exists (s :: ls). now rewrite <- emit_all_cons.
      * rewrite bind_print.
        destruct (IH f' (emit w (incomplete_text chunk))) as [ls H].
        exists (incomplete_text chunk :: ls). now rewrite <- emit_all_cons.
    + exists []. left. unfold ret. now rewrite emit_all_nil.
Qed.

(* ================================================================== *)
(** ** The reader and the process *)
(* ================================================================== *)

Section Runs.

Variable fs : filesystem.

(** On a regular file the reader is its loop: the handler never fires. *)
Lemma print_u32_values_file
      (fuel : nat) (path : string) (data : bytes) (w : world) :
  fs path = RegularFile data ->
  print_u32_values fs fuel path w = read_loop fuel (mkFile data 0) w.
Proof.
  intros Hfs. unfold print_u32_values, try_except, bind, open_rb.
  rewrite Hfs. cbn [ret].
  destruct (read_loop_appends fuel (mkFile data 0) w) as [ls [H|H]];
    now rewrite H.
Qed.

(** On a path that does not exist the handler prints its message. *)
Lemma print_u32_values_missing (fuel : nat) (path : string) (w : world) :
  fs path = NoSuchFile ->
  print_u32_values fs fuel path w = (Done tt, emit w (not_found_text path)).
Proof.
  intros Hfs. unfold print_u32_values, try_except, bind, open_rb.
  now rewrite Hfs.
Qed.

(** Any other failure of [open] passes through the [except] clause. *)
Lemma print_u32_values_unopenable (fuel : nat) (path : string) (w : world) :
  fs path = Unopenable ->
  print_u32_values fs fuel path w = (Raised (OSError path), w).
Proof.
  intros Hfs. unfold print_u32_values, try_except, bind, open_rb.
  now rewrite Hfs.
Qed.

(** With two arguments [main] is the reader on the second one. *)
Lemma main_one_path (fuel : nat) (prog path : string) (w : world) :
  main fs fuel [prog; path] w = print_u32_values fs fuel path w.
Proof.
  unfold main. cbn [length Nat.eqb negb argv_get nth_error].
  unfold bind, ret.
  now destruct (print_u32_values fs fuel path w) as [[u|e|] w'].
Qed.

(** With any other number of arguments [main] stops at the name [os]. *)
Lemma main_bad_argc (fuel : nat) (argv : list string) (w : world) :
  length argv <> 2 ->
  main fs fuel argv w = (Raised (NameError "os"), w).
Proof.
  intros H. unfold main.
  destruct (Nat.eqb_spec (length argv) 2) as [E|_]; [contradiction|].
  reflexivity.
Qed.

(** The process on a regular file, with enough fuel. *)
Lemma run_script_file (fuel : nat) (prog path : string) (data : bytes) :
  fs path = RegularFile data ->
  iterations data <= fuel ->
  run_script fuel fs [prog; path]
  = Some (mkOutcome
            (record_lines data (length data / 8) ++ tail_lines data)
            [] 0 None).
Proof.
  intros Hfs Hf. unfold run_script.
  rewrite main_one_path, (print_u32_values_file _ _ _ _ Hfs).
  now rewrite read_loop_total.
Qed.

(** The process on a regular file, short of fuel. *)
Lemma run_script_file_running (fuel : nat) (prog path : string) (data : bytes) :
  fs path = RegularFile data ->
  fuel < iterations data ->
  run_script fuel fs [prog; path] = None.
Proof.
  intros Hfs Hf. unfold run_script.
  rewrite main_one_path, (print_u32_values_file _ _ _ _ Hfs).
  pose proof (read_loop_exact data fuel empty_world Hf) as H.
  destruct (read_loop fuel (mkFile data 0) empty_world) as [r w'].
  cbn [fst] in H. now subst r.
Qed.

Lemma run_script_missing (fuel : nat) (prog path : string) :
  fs path = NoSuchFile ->
  run_script fuel fs [prog; path]
  = Some (mkOutcome [not_found_text path] [] 0 None).
Proof.
  intros Hfs. unfold run_script.
  now rewrite main_one_path, (print_u32_values_missing _ _ _ Hfs).
Qed.

Lemma run_script_unopenable (fuel : nat) (prog path : string) :
  fs path = Unopenable ->
  run_script fuel fs [prog; path]
  = Some (mkOutcome [] [traceback (OSError path)] 1 (Some (OSError path))).
Proof.
  intros Hfs. unfold run_script.
  now rewrite main_one_path, (print_u32_values_unopenable _ _ _ Hfs).
Qed.

Lemma run_script_bad_argc (fuel : nat) (argv : list string) :
  length argv <> 2 ->
  run_script fuel fs argv
  = Some (mkOutcome [] [traceback (NameError "os")] 1
                    (Some (NameError "os"))).
Proof.
  intros H. unfold run_script. now rewrite (main_bad_argc _ _ _ H).
Qed.

End Runs.

(* ================================================================== *)
(** ** Decoding what was encoded *)
(* ================================================================== *)

Lemma to_N_byte_of_N (n : N) : Byte.to_N (byte_of_N n) = (n mod 256)%N.
Proof.
  unfold byte_of_N. destruct (Byte.of_N (n mod 256)) as [b|] eqn:E.
  - now apply Byte.to_of_N.
  - apply Byte.of_N_None_iff in E.
    pose proof (N.mod_upper_bound n 256). lia.
Qed.

Lemma length_le_bytes (k : nat) : forall n, length (le_bytes k n) = k.
Proof. induction k; intros n; cbn; [reflexivity | now rewrite IHk]. Qed.

Lemma le_uint_le_bytes (k : nat) :
  forall n, le_uint (le_bytes k n) = (n mod 256 ^ N.of_nat k)%N.
Proof.
  induction k as [|k IH]; intros n.
  - cbn. now rewrite N.mod_1_r.
  - cbn [le_bytes le_uint]. rewrite to_N_byte_of_N, IH.
    rewrite Nat2N.inj_succ, N.pow_succ_r'.
    now rewrite N.Div0.mod_mul_r.
Qed.

Lemma le_uint_le_bytes_u32 (n : N) : is_u32 n -> le_uint (le_bytes 4 n) = n.
Proof.
  intros H. rewrite le_uint_le_bytes. apply N.mod_small. exact H.
Qed.

Lemma length_pack_II (a b : N) : length (pack_II a b) = 8.
Proof. unfold pack_II. now rewrite length_app, !length_le_bytes. Qed.

(** Decoding is a left inverse of encoding, on one record. *)
Lemma unpack_pack (a b : N) :
  is_u32 a -> is_u32 b -> unpack_II (pack_II a b) = Some (a, b).
Proof.
  intros Ha Hb. unfold unpack_II. rewrite length_pack_II. cbn [Nat.eqb].
  unfold pack_II.
  rewrite firstn_app, skipn_app, !length_le_bytes.
  rewrite firstn_all2 by (rewrite length_le_bytes; lia).
  rewrite skipn_all2 by (rewrite length_le_bytes; lia).
  cbn [Nat.sub firstn skipn app]. rewrite app_nil_r.
  now rewrite !le_uint_le_bytes_u32.
Qed.

Lemma length_encode_records (pairs : list (N * N)) :
  length (encode_records pairs) = 8 * length pairs.
Proof.
  unfold encode_records. induction pairs as [|p ps IH]; [reflexivity|].
  cbn [map List.concat length]. rewrite length_app, length_pack_II, IH. lia.
Qed.

(** A slice that falls on a segment of a concatenation. *)
Lemma slice_app_mid (pre x post : bytes) (p n : nat) :
  length pre = p -> length x = n -> slice (pre ++ x ++ post) p n = x.
Proof.
  intros Hp Hn. unfold slice.
  rewrite skipn_app, skipn_all2 by lia.
  replace (p - length pre) with 0 by lia. cbn [skipn app].
  rewrite firstn_app, firstn_all2 by lia.
  replace (n - length x) with 0 by lia. cbn [firstn]. apply app_nil_r.
Qed.

(** The line of record [k] when record [k] is an encoded pair. *)
Lemma record_line_pack (pre post : bytes) (k : nat) (a b : N) :
  length pre = 8 * k -> is_u32 a -> is_u32 b ->
  record_line (pre ++ pack_II a b ++ post) k = record_text a b.
Proof.
  intros Hp Ha Hb. unfold record_line, pack_II.
  rewrite <- (app_assoc (le_bytes 4 a)).
  rewrite (slice_app_mid pre (le_bytes 4 a)) by
    (assumption || apply length_le_bytes).
  rewrite (app_assoc pre).
  rewrite (slice_app_mid (pre ++ le_bytes 4 a) (le_bytes 4 b)) by
    (rewrite ?length_app, ?length_le_bytes; lia).
  now rewrite !le_uint_le_bytes_u32.
Qed.

Lemma record_lines_encode_from (pairs : list (N * N)) :
  forall (pre : bytes) (k : nat),
    length pre = 8 * k ->
    all_u32 pairs ->
    map (record_line (pre ++ encode_records pairs)) (seq k (length pairs))
    = map pair_text pairs.
Proof.
  induction pairs as [|[a b] ps IH]; intros pre k Hp Hall; [reflexivity|].
  inversion Hall as [|p ps' [Ha Hb] Hps]; subst. cbn [fst snd] in Ha, Hb.
  cbn [length seq map]. f_equal.
  - unfold encode_records. cbn [map List.concat fst snd].
    now apply record_line_pack.
  - unfold encode_records. cbn [map List.concat fst snd].
    rewrite app_assoc. apply IH; [|assumption].
    rewrite length_app, length_pack_II. lia.
Qed.

Lemma record_lines_encode (pairs : list (N * N)) :
  all_u32 pairs ->
  record_lines (encode_records pairs) (length pairs) = map pair_text pairs.
Proof.
  intros H. exact (record_lines_encode_from pairs [] 0 eq_refl H).
Qed.

(* ================================================================== *)
(** ** Reading the lines back *)
(* ================================================================== *)

Lemma string_of_uint_no_space (d : Decimal.uint) :
  has_space (NilEmpty.string_of_uint d) = false.
Proof. induction d; cbn; assumption || reflexivity. Qed.

Lemma str_of_int_no_space (n : N) : has_space (str_of_int n) = false.
Proof. apply string_of_uint_no_space. Qed.

Lemma str_of_int_inj (a b : N) : str_of_int a = str_of_int b -> a = b.
Proof.
  unfold str_of_int. intros H.
  apply DecimalN.Unsigned.to_uint_inj.
  pose proof (NilEmpty.usu (N.to_uint a)) as Ha.
  pose proof (NilEmpty.usu (N.to_uint b)) as Hb.
  rewrite H in Ha. congruence.
Qed.

(** Two space-free words followed by a space and more text: equal texts
    have equal words and equal rests. *)
Lemma split_at_space (s : string) :
  forall (s' t t' : string),
    has_space s = false -> has_space s' = false ->
    (s ++ String " " t)%string = (s' ++ String " " t')%string ->
    s = s' /\ t = t'.
Proof.
  induction s as [|c s IH]; intros [|c' s'] t t' Hs Hs' E; cbn in *.
  - injection E as ->. now split.
  - injection E as <- _. cbn in Hs'. discriminate.
  - injection E as -> _. cbn in Hs. discriminate.
  - injection E as -> E.
    apply orb_false_iff in Hs as [_ Hs], Hs' as [_ Hs'].
    destruct (IH s' t t' Hs Hs' E) as [-> ->]. now split.
Qed.

(** A record line determines the two integers it shows. *)
Lemma record_text_inj (a b a' b' : N) :
  record_text a b = record_text a' b' -> a = a' /\ b = b'.
Proof.
  unfold record_text. cbn [append]. intros E.
  apply split_at_space in E as [Ea Eb]; try apply str_of_int_no_space.
  injection Eb as Eb. split; now apply str_of_int_inj.
Qed.

Lemma pair_text_inj (p q : N * N) : pair_text p = pair_text q -> p = q.
Proof.
  destruct p as [a b], q as [a' b']. unfold pair_text. cbn [fst snd].
  intros E. apply record_text_inj in E as [-> ->]. reflexivity.
Qed.

Lemma map_pair_text_inj (ps : list (N * N)) :
  forall qs, map pair_text ps = map pair_text qs -> ps = qs.
Proof.
  induction ps as [|p ps IH]; intros [|q qs] E; cbn in E;
    try discriminate; [reflexivity|].
  injection E as Ep Eps. f_equal; [now apply pair_text_inj | now apply IH].
Qed.

(** No record line is the file-not-found message, nor a diagnostic of an
    incomplete chunk: a record line starts with a digit. *)
Lemma record_text_not_message (a b : N) (path : string) :
  record_text a b <> not_found_text path.
Proof.
  unfold record_text, not_found_text, str_of_int.
  destruct (N.to_uint a); cbn; discriminate.
Qed.

Lemma record_text_not_incomplete (a b : N) (chunk : bytes) :
  record_text a b <> incomplete_text chunk.
Proof.
  unfold record_text, incomplete_text, str_of_int.
  destruct (N.to_uint a); cbn; discriminate.
Qed.

(* ================================================================== *)
(** ** The script against the record format of the specification *)
(* ================================================================== *)

(** *** Decoding *)

Lemma slice_four (data : bytes) (i : nat) :
  i + 4 <= length data ->
  slice data i 4
  = [nth i data x00; nth (i + 1) data x00;
     nth (i + 2) data x00; nth (i + 3) data x00].
Proof.
  intros H. unfold slice.
  rewrite <- (Nat.add_0_r i) at 2.
  rewrite <- !nth_skipn.
  assert (L : 4 <= length (skipn i data)) by (rewrite length_skipn; lia).
  destruct (skipn i data) as [|a [|b [|c [|d rest]]]]; cbn in L; try lia.
  reflexivity.
Qed.

(** The decoding of the script is the little-endian value of the
    specification. *)
Lemma le_uint_slice_spec (data : bytes) (i : nat) :
  i + 4 <= length data -> le_uint (slice data i 4) = spec_u32_le data i.
Proof.
  intros H. rewrite (slice_four _ _ H).
  unfold spec_u32_le, byte_at. cbn [le_uint]. lia.
Qed.

(** *** Decimal text *)

Lemma digits_value_string_of_uint (d : Decimal.uint) :
  forall acc,
    digits_value (NilEmpty.string_of_uint d) acc = Some (uint_value d acc).
Proof. induction d; intros acc; cbn; [reflexivity | apply IHd ..]. Qed.

Lemma pos_of_uint_acc_value (d : Decimal.uint) :
  forall acc, N.pos (Pos.of_uint_acc d acc) = uint_value d (N.pos acc).
Proof.
  induction d; intros acc; cbn [Pos.of_uint_acc uint_value];
    [reflexivity | rewrite IHd; f_equal; lia ..].
Qed.

Lemma of_uint_value (d : Decimal.uint) : N.of_uint d = uint_value d 0.
Proof.
  unfold N.of_uint.
  induction d; cbn [Pos.of_uint uint_value];
    [reflexivity | exact IHd | apply pos_of_uint_acc_value ..].
Qed.

Lemma str_of_int_value (n : N) : digits_value (str_of_int n) 0 = Some n.
Proof.
  unfold str_of_int. rewrite digits_value_string_of_uint.
  now rewrite <- of_uint_value, DecimalN.Unsigned.of_to.
Qed.

Lemma to_uint_normal (n : N) : Decimal.unorm (N.to_uint n) = N.to_uint n.
Proof.
  rewrite <- (DecimalN.Unsigned.of_to n) at 2.
  now rewrite DecimalN.Unsigned.to_of.
Qed.

(** A list of digits without zeros in front is a single zero or starts
    with another digit. *)
Lemma normal_shape (d : Decimal.uint) :
  Decimal.unorm d = d ->
  NilEmpty.string_of_uint d = "0"
  \/ exists c rest,
       NilEmpty.string_of_uint d = String c rest /\ c <> "0"%char.
Proof.
  destruct d as [|r|r|r|r|r|r|r|r|r|r]; intros H;
    try (right; eexists; eexists; split; [reflexivity | discriminate]).
  - discriminate H.
  - unfold Decimal.unorm in H. cbn [Decimal.nzhead] in H.
    destruct r as [|x|x|x|x|x|x|x|x|x|x]; cbn [Decimal.nzhead] in H;
      try discriminate H.
    + now left.
    + exfalso. clear -H. revert H.
      assert (G : forall u v, Decimal.nzhead u <> Decimal.D0 v).
      { induction u; intros v; cbn; try discriminate. apply IHu. }
      destruct (Decimal.nzhead x) eqn:E; intros H; try discriminate H.
      now apply (G x u).
Qed.

(** The text that the script prints for a number is its decimal
    representation. *)
Lemma str_of_int_decimal (n : N) : is_decimal_of (str_of_int n) n.
Proof.
  unfold is_decimal_of. split; [|split].
  - unfold str_of_int.
    destruct (normal_shape _ (to_uint_normal n)) as [E|(c & r & E & _)];
      rewrite E; discriminate.
  - apply str_of_int_value.
  - unfold str_of_int. intros rest E.
    destruct (normal_shape _ (to_uint_normal n)) as [E0|(c & r & E1 & Hc)].
    + rewrite E0 in E. now injection E as <-.
    + rewrite E1 in E. injection E as -> _. now destruct Hc.
Qed.

(** The line that the script prints for a record is the line of the
    specification. *)
Lemma record_text_spec (first last : N) :
  is_spec_line (record_text first last) first last.
Proof.
  exists (str_of_int first), (str_of_int last).
  split; [reflexivity | split; apply str_of_int_decimal].
Qed.

Lemma record_line_spec (data : bytes) (k : nat) :
  8 * k + 8 <= length data ->
  is_spec_line (record_line data k)
               (spec_u32_le data (8 * k)) (spec_u32_le data (8 * k + 4)).
Proof.
  intros H. unfold record_line.
  rewrite !le_uint_slice_spec by lia. apply record_text_spec.
Qed.

(** The same, step by step, for a goal [is_spec_line (record_line data k)
    _ _]: the two decodings are the little-endian values, the text is the
    two decimal texts around [" : "]. *)
Ltac record_line_is_spec data k :=
  let Ea := fresh "Ea" in
  let Eb := fresh "Eb" in
  assert (Ea : le_uint (slice data (8 * k) 4) = spec_u32_le data (8 * k))
    by (rewrite slice_four by lia;
        unfold spec_u32_le, byte_at; cbn [le_uint]; lia);
  assert (Eb : le_uint (slice data (8 * k + 4) 4)
               = spec_u32_le data (8 * k + 4))
    by (rewrite slice_four by lia;
        unfold spec_u32_le, byte_at; cbn [le_uint]; lia);
  exists (str_of_int (spec_u32_le data (8 * k))),
         (str_of_int (spec_u32_le data (8 * k + 4)));
  split;
  [ unfold record_line, record_text; rewrite Ea, Eb; reflexivity
  | split; apply str_of_int_decimal ].

(** *** The specification leaves one text only *)

(** A digit in front of a list of digits. *)
Lemma digit_cons (c : ascii) (k : N) (r : Decimal.uint) :
  digit_value c = Some k ->
  exists d,
    NilEmpty.string_of_uint d = String c (NilEmpty.string_of_uint r)
    /\ (forall acc, uint_value d acc = uint_value r (10 * acc + k))
    /\ d <> Decimal.Nil
    /\ (forall x, d = Decimal.D0 x -> c = "0"%char /\ x = r).
Proof.
  destruct c as [[] [] [] [] [] [] [] []]; cbn; intros H;
    try discriminate H; injection H as <-;
    first
      [ exists (Decimal.D0 r); repeat split; try discriminate;
        congruence
      | exists (Decimal.D1 r); repeat split; discriminate
      | exists (Decimal.D2 r); repeat split; discriminate
      | exists (Decimal.D3 r); repeat split; discriminate
      | exists (Decimal.D4 r); repeat split; discriminate
      | exists (Decimal.D5 r); repeat split; discriminate
      | exists (Decimal.D6 r); repeat split; discriminate
      | exists (Decimal.D7 r); repeat split; discriminate
      | exists (Decimal.D8 r); repeat split; discriminate
      | exists (Decimal.D9 r); repeat split; discriminate ].
Qed.

(** A string of digits is the text of a list of digits of the same
    value. *)
Lemma digits_value_uint (s : string) :
  forall acc v,
    digits_value s acc = Some v ->
    exists d,
      NilEmpty.string_of_uint d = s
      /\ uint_value d acc = v
      /\ (s <> EmptyString -> d <> Decimal.Nil)
      /\ (forall x, d = Decimal.D0 x ->
                    s = String "0" (NilEmpty.string_of_uint x)).
Proof.
  induction s as [|c s IH]; intros acc v H; cbn [digits_value] in H.
  - injection H as <-. exists Decimal.Nil.
    repeat split; try reflexivity; try discriminate. now intros [].
  - destruct (digit_value c) as [k|] eqn:Hc; [|discriminate H].
    destruct (IH _ _ H) as (r & Er & Ev & _ & _).
    destruct (digit_cons c k r Hc) as (d & Ed & Evd & Hn & Hz).
    exists d. rewrite Ed, Er, Evd, Ev. repeat split; auto.
    intros x Hx. destruct (Hz x Hx) as [-> ->]. now rewrite Er.
Qed.

Lemma string_of_uint_nil (d : Decimal.uint) :
  NilEmpty.string_of_uint d = EmptyString -> d = Decimal.Nil.
Proof. destruct d; cbn; intros H; [reflexivity | discriminate H ..]. Qed.

(** The decimal representation of a number is the text that the script
    prints for it, and no other. *)
Lemma is_decimal_of_unique (s : string) (n : N) :
  is_decimal_of s n -> s = str_of_int n.
Proof.
  intros (Hne & Hv & Hz).
  destruct (digits_value_uint s 0 n Hv) as (d & Es & Ev & Hd & H0).
  specialize (Hd Hne).
  assert (Hnorm : Decimal.unorm d = d).
  { destruct d as [|x|x|x|x|x|x|x|x|x|x]; try reflexivity.
    - now destruct Hd.
    - specialize (H0 x eq_refl). apply Hz in H0.
      apply string_of_uint_nil in H0. now subst x. }
  unfold str_of_int. rewrite <- Es. f_equal.
  rewrite <- Ev, <- of_uint_value, DecimalN.Unsigned.to_of.
  now rewrite Hnorm.
Qed.

(** The line of the specification is the line that the script prints,
    and no other. *)
Lemma is_spec_line_unique (l : string) (first last : N) :
  is_spec_line l first last -> l = record_text first last.
Proof.
  intros (s1 & s2 & -> & H1 & H2).
  apply is_decimal_of_unique in H1, H2. now subst s1 s2.
Qed.

(* ================================================================== *)
(** ** Properties of the script *)
(* ================================================================== *)

Lemma nth_error_record_lines (data : bytes) (n k : nat) :
  k < n -> nth_error (record_lines data n) k = Some (record_line data k).
Proof.
  intros H. unfold record_lines.
  rewrite nth_error_map.
  rewrite (nth_error_nth' _ 0) by (rewrite length_seq; exact H).
  now rewrite seq_nth.
Qed.

Lemma length_record_lines (data : bytes) (n : nat) :
  length (record_lines data n) = n.
Proof. unfold record_lines. now rewrite length_map, length_seq. Qed.

Lemma tail_lines_aligned (data : bytes) :
  length data mod 8 = 0 -> tail_lines data = [].
Proof. intros H. unfold tail_lines. now rewrite H. Qed.

Lemma tail_lines_partial (data : bytes) :
  length data mod 8 <> 0 ->
  tail_lines data = [incomplete_text (leftover data)].
Proof.
  intros H. unfold tail_lines.
  now destruct (Nat.eqb_spec (length data mod 8) 0).
Qed.

Lemma length_leftover (data : bytes) :
  length (leftover data) = length data mod 8.
Proof.
  unfold leftover. rewrite length_skipn.
  destruct (div8_spec (length data)). lia.
Qed.

Lemma iterations_partial (data : bytes) :
  length data mod 8 <> 0 -> iterations data = length data / 8 + 2.
Proof.
  intros H. unfold iterations.
  destruct (Nat.eqb_spec (length data mod 8) 0); [contradiction | lia].
Qed.

Lemma iterations_aligned (data : bytes) :
  length data mod 8 = 0 -> iterations data = length data / 8 + 1.
Proof. intros H. unfold iterations. rewrite H. cbn. lia. Qed.

(** C1.  For a file whose length is a multiple of 8, the run prints exactly
    length/8 lines, and line [k] is [<first> : <last>] with [first] the
    little-endian unsigned value of bytes [8k, 8k+4) and [last] that of
    bytes [8k+4, 8k+8).  The line is stated twice: as the script computes
    it, and in the words of the specification, as the decimal texts of
    [byte 8k + 256 * byte (8k+1) + 65536 * byte (8k+2) + 16777216 * byte
    (8k+3)] and of the same for the next four bytes, with [" : "] between
    them. *)
Theorem wellformed_file_lines
        (fs : filesystem) (fuel : nat) (prog path : string) (data : bytes) :
  fs path = RegularFile data ->
  length data mod 8 = 0 ->
  iterations data <= fuel ->
  exists o,
    run_script fuel fs [prog; path] = Some o
    /\ length (out_stdout o) = length data / 8
    /\ (forall k, k < length data / 8 ->
          nth_error (out_stdout o) k
          = Some (record_text (le_uint (slice data (8 * k) 4))
                              (le_uint (slice data (8 * k + 4) 4))))
    /\ (forall k, k < length data / 8 ->
          exists l,
            nth_error (out_stdout o) k = Some l
            /\ is_spec_line l (spec_u32_le data (8 * k))
                              (spec_u32_le data (8 * k + 4))).
Proof.
  intros Hfs Hmod Hfuel. eexists. split.
  - exact (run_script_file fs fuel prog path data Hfs Hfuel).
  - cbn [out_stdout]. rewrite (tail_lines_aligned _ Hmod), app_nil_r.
    split; [apply length_record_lines|]. split.
    + intros k Hk. now rewrite nth_error_record_lines.
    + intros k Hk. exists (record_line data k).
      split; [now apply nth_error_record_lines|].
      destruct (div8_spec (length data)) as [E B].
      record_line_is_spec data k.
Qed.

Lemma wellformed_file_lines_witness :
  run_script 3 (single_file "a.idx" two_records) [script; "a.idx"]
  = Some (mkOutcome ["4294967295 : 0"; "1 : 1"] [] 0 None)
  /\ spec_u32_le two_records 0 = 4294967295%N
  /\ spec_u32_le two_records 4 = 0%N
  /\ exists o,
      run_script 3 (single_file "a.idx" two_records) [script; "a.idx"]
      = Some o
      /\ length (out_stdout o) = length two_records / 8
      /\ (forall k, k < length two_records / 8 ->
            nth_error (out_stdout o) k
            = Some (record_text (le_uint (slice two_records (8 * k) 4))
                                (le_uint (slice two_records (8 * k + 4) 4))))
      /\ (forall k, k < length two_records / 8 ->
            exists l,
              nth_error (out_stdout o) k = Some l
              /\ is_spec_line l (spec_u32_le two_records (8 * k))
                                (spec_u32_le two_records (8 * k + 4))).
Proof.
  split; [reflexivity|]. split; [reflexivity|]. split; [reflexivity|].
  apply (wellformed_file_lines (single_file "a.idx" two_records) 3
                               script "a.idx" two_records).
  - reflexivity.
  - reflexivity.
  - cbn. lia.
Defined.

(** C2 as stated (the loop never terminates on a file whose length is not
    a multiple of 8) fails on the 5-byte file: two iterations leave the
    loop. *)
Lemma truncated_loop_terminates :
  ~ (forall fuel : nat,
        fst (read_loop fuel (mkFile five_bytes 0) empty_world) = Diverged).
Proof.
  intros H. specialize (H 2). vm_compute in H. discriminate H.
Qed.

(** C2, amended.  On a file whose length is not a multiple of 8, the
    iteration that reads the trailing partial chunk (1 to 7 bytes) prints
    a diagnostic holding the bytes of the chunk and continues the loop with
    the cursor at the end of the file; the next read is empty and leaves
    the loop.  The loop terminates, after exactly length/8 + 2
    iterations. *)
Theorem partial_chunk_then_end (data : bytes) (fuel : nat) (w : world) :
  length data mod 8 <> 0 ->
  1 <= length (leftover data) <= 7
  /\ read_loop (S fuel) (mkFile data (8 * (length data / 8))) w
     = read_loop fuel (mkFile data (length data))
         (emit w (incomplete_text (leftover data)))
  /\ fst (file_read 8 (mkFile data (length data))) = []
  /\ (forall w', read_loop (S fuel) (mkFile data (length data)) w'
                 = (Done tt, w'))
  /\ (length data / 8 + 2 <= fuel ->
      read_loop fuel (mkFile data 0) w
      = (Done tt,
         emit_all w (record_lines data (length data / 8)
                       ++ [incomplete_text (leftover data)])))
  /\ (fuel < length data / 8 + 2 ->
      fst (read_loop fuel (mkFile data 0) w) = Diverged).
Proof.
  intros Hmod. destruct (div8_spec (length data)) as [E B].
  repeat split.
  - rewrite length_leftover. lia.
  - rewrite length_leftover. lia.
  - unfold leftover. apply read_loop_partial. lia.
  - rewrite read_short by lia. cbn [fst]. now apply skipn_all2.
  - intros w'. now apply read_loop_eof.
  - intros Hf. rewrite <- (tail_lines_partial _ Hmod).
    apply read_loop_total. rewrite (iterations_partial _ Hmod). exact Hf.
  - intros Hf. apply read_loop_exact.
    rewrite (iterations_partial _ Hmod). exact Hf.
Qed.

Lemma partial_chunk_then_end_witness :
  1 <= length (leftover eleven_bytes) <= 7
  /\ read_loop 3 (mkFile eleven_bytes (8 * (length eleven_bytes / 8)))
               empty_world
     = read_loop 2 (mkFile eleven_bytes (length eleven_bytes))
         (emit empty_world (incomplete_text (leftover eleven_bytes)))
  /\ fst (file_read 8 (mkFile eleven_bytes (length eleven_bytes))) = []
  /\ (forall w', read_loop 3 (mkFile eleven_bytes (length eleven_bytes)) w'
                 = (Done tt, w'))
  /\ (length eleven_bytes / 8 + 2 <= 2 ->
      read_loop 2 (mkFile eleven_bytes 0) empty_world
      = (Done tt,
         emit_all empty_world
           (record_lines eleven_bytes (length eleven_bytes / 8)
              ++ [incomplete_text (leftover eleven_bytes)])))
  /\ (2 < length eleven_bytes / 8 + 2 ->
      fst (read_loop 2 (mkFile eleven_bytes 0) empty_world) = Diverged).
Proof.
  apply (partial_chunk_then_end eleven_bytes 2 empty_world).
  cbn. discriminate.
Defined.

(** C3.  Encoding pairs of unsigned 32-bit integers as little-endian
    8-byte records, one after the other, and running the reader on the
    result prints the lines of exactly these pairs, in their order: the
    output is the pairs' lines, no other list of pairs has these lines,
    and unpacking an encoded record gives the pair back. *)
Theorem encode_then_read
        (fs : filesystem) (fuel : nat) (prog path : string)
        (pairs : list (N * N)) :
  all_u32 pairs ->
  fs path = RegularFile (encode_records pairs) ->
  length pairs + 1 <= fuel ->
  exists o,
    run_script fuel fs [prog; path] = Some o
    /\ out_stdout o = map pair_text pairs
    /\ out_status o = 0%N
    /\ (forall qs, out_stdout o = map pair_text qs -> qs = pairs)
    /\ Forall (fun p => unpack_II (pack_II (fst p) (snd p)) = Some p) pairs.
Proof.
  intros Hall Hfs Hfuel.
  pose proof (length_encode_records pairs) as Hlen.
  destruct (div8_unique (length (encode_records pairs)) (length pairs) 0)
    as [Hq Hr]; [lia | lia |].
  eexists. split.
  - apply (run_script_file fs fuel prog path _ Hfs).
    rewrite (iterations_aligned _ Hr), Hq. exact Hfuel.
  - cbn [out_stdout out_status].
    rewrite (tail_lines_aligned _ Hr), app_nil_r, Hq.
    rewrite (record_lines_encode _ Hall).
    repeat split.
    + intros qs E. symmetry. now apply map_pair_text_inj.
    + apply Forall_impl with (2 := Hall).
      intros [a b] [Ha Hb]. now apply unpack_pack.
Qed.

Lemma encode_then_read_witness :
  exists o,
    run_script 3
      (single_file "a.idx" (encode_records [(4294967295, 0); (1, 1)]%N))
      [script; "a.idx"] = Some o
    /\ out_stdout o = map pair_text [(4294967295, 0); (1, 1)]%N
    /\ out_status o = 0%N
    /\ (forall qs, out_stdout o = map pair_text qs ->
                   qs = [(4294967295, 0); (1, 1)]%N)
    /\ Forall (fun p => unpack_II (pack_II (fst p) (snd p)) = Some p)
              [(4294967295, 0); (1, 1)]%N.
Proof.
  apply (encode_then_read
           (single_file "a.idx" (encode_records [(4294967295, 0); (1, 1)]%N))
           3 script "a.idx" [(4294967295, 0); (1, 1)]%N).
  - repeat constructor.
  - reflexivity.
  - cbn. lia.
Defined.

(** C4 as stated (a truncated file is reported with its offset and ends
    in a non-zero status) fails on the 5-byte file: the run ends with
    status 0, and its diagnostic is the one a 13-byte file with the same
    tail gets, so the line does not tell the offset. *)
Lemma truncated_file_exits_zero :
  run_script 2 (single_file "a.idx" five_bytes) [script; "a.idx"]
  = Some (mkOutcome ["Incomplete chunk: b'\x01\x02\x03\x04\x05'"] [] 0 None)
  /\ ~ (exists fuel o,
          run_script fuel (single_file "a.idx" five_bytes) [script; "a.idx"]
          = Some o
          /\ out_status o <> 0%N)
  /\ tail_lines (one_record ++ five_bytes) = tail_lines five_bytes.
Proof.
  split; [reflexivity|]. split; [|reflexivity].
  intros (fuel & o & Hrun & Hst). apply Hst. clear Hst.
  destruct (Nat.lt_ge_cases fuel (iterations five_bytes)) as [Hlt|Hge].
  - rewrite (run_script_file_running _ fuel script "a.idx" five_bytes
               eq_refl Hlt) in Hrun.
    discriminate Hrun.
  - rewrite (run_script_file _ fuel script "a.idx" five_bytes eq_refl Hge)
      in Hrun.
    injection Hrun as <-. reflexivity.
Qed.

(** C4, amended.  For a file with a trailing chunk shorter than 8 bytes,
    the run prints the record lines and then one line [Incomplete chunk:]
    followed by the leftover bytes themselves (length mod 8 of them; no
    offset), leaves the read loop, writes nothing to the error stream and
    ends with status 0. *)
Theorem truncated_file_outcome
        (fs : filesystem) (fuel : nat) (prog path : string) (data : bytes) :
  fs path = RegularFile data ->
  length data mod 8 <> 0 ->
  iterations data <= fuel ->
  run_script fuel fs [prog; path]
  = Some (mkOutcome
            (record_lines data (length data / 8)
               ++ [incomplete_text (leftover data)])
            [] 0 None)
  /\ length (leftover data) = length data mod 8.
Proof.
  intros Hfs Hmod Hfuel. split; [|apply length_leftover].
  rewrite <- (tail_lines_partial _ Hmod). now apply run_script_file.
Qed.

Lemma truncated_file_outcome_witness :
  run_script 3 (single_file "a.idx" eleven_bytes) [script; "a.idx"]
  = Some (mkOutcome
            (record_lines eleven_bytes (length eleven_bytes / 8)
               ++ [incomplete_text (leftover eleven_bytes)])
            [] 0 None)
  /\ length (leftover eleven_bytes) = length eleven_bytes mod 8.
Proof.
  apply (truncated_file_outcome (single_file "a.idx" eleven_bytes) 3
                                script "a.idx" eleven_bytes).
  - reflexivity.
  - cbn. discriminate.
  - cbn. lia.
Defined.

(** C5 as stated (a path that cannot be opened ends the program with a
    non-zero status) fails on a path that does not exist: the message is
    printed and the status is 0. *)
Lemma missing_file_exits_zero :
  run_script 0 (fun _ => NoSuchFile) [script; "missing.idx"]
  = Some (mkOutcome ["Error: File 'missing.idx' not found"] [] 0 None)
  /\ ~ (exists fuel o,
          run_script fuel (fun _ => NoSuchFile) [script; "missing.idx"]
          = Some o
          /\ out_status o <> 0%N).
Proof.
  split; [reflexivity|].
  intros (fuel & o & Hrun & Hst). apply Hst.
  rewrite (run_script_missing (fun _ => NoSuchFile) fuel script "missing.idx"
             eq_refl) in Hrun.
  injection Hrun as <-. reflexivity.
Qed.

(** C5, amended.  For a path that does not name a file that opens, the
    program prints no record line.  When the path does not exist it prints
    the one line [Error: File '<path>' not found] on standard output and
    ends with status 0; when the path exists and cannot be opened the
    exception is not caught, nothing is printed on standard output and the
    status is 1. *)
Theorem unopened_path_outcome
        (fs : filesystem) (fuel : nat) (prog path : string) :
  (forall data, fs path <> RegularFile data) ->
  exists o,
    run_script fuel fs [prog; path] = Some o
    /\ (forall a b, ~ In (record_text a b) (out_stdout o))
    /\ (fs path = NoSuchFile ->
        out_stdout o = [not_found_text path]
        /\ out_status o = 0%N /\ out_uncaught o = None)
    /\ (fs path = Unopenable ->
        out_stdout o = []
        /\ out_status o = 1%N /\ out_uncaught o = Some (OSError path)).
Proof.
  intros Hno. destruct (fs path) as [data| |] eqn:Hfs.
  - now destruct (Hno data).
  - eexists. split; [now apply run_script_missing|].
    cbn [out_stdout out_status out_uncaught]. repeat split; try discriminate.
    intros a b [E|[]]. now apply (record_text_not_message a b path).
  - eexists. split; [now apply run_script_unopenable|].
    cbn [out_stdout out_status out_uncaught]. repeat split; try discriminate.
    intros a b [].
Qed.

Lemma unopened_path_outcome_witness :
  exists o,
    run_script 1 (single_file "a.idx" one_record) [script; "b.idx"] = Some o
    /\ (forall a b, ~ In (record_text a b) (out_stdout o))
    /\ (single_file "a.idx" one_record "b.idx" = NoSuchFile ->
        out_stdout o = [not_found_text "b.idx"]
        /\ out_status o = 0%N /\ out_uncaught o = None)
    /\ (single_file "a.idx" one_record "b.idx" = Unopenable ->
        out_stdout o = []
        /\ out_status o = 1%N /\ out_uncaught o = Some (OSError "b.idx")).
Proof.
  apply (unopened_path_outcome (single_file "a.idx" one_record) 1
                               script "b.idx").
  intros data. cbn. discriminate.
Defined.

(** C6 on the code: with no file argument, and likewise with two, the
    block evaluates the name [os], which the script never imports; the
    run ends in an uncaught [NameError] with status 1 and prints no usage
    text. *)
Theorem wrong_argument_count_outcome (fuel : nat) (fs : filesystem) :
  run_script fuel fs [script]
  = Some (mkOutcome [] [traceback (NameError "os")] 1
                    (Some (NameError "os")))
  /\ run_script fuel fs [script; "a.idx"; "b.idx"]
     = Some (mkOutcome [] [traceback (NameError "os")] 1
                       (Some (NameError "os"))).
Proof. split; reflexivity. Qed.

(** Whatever the arguments, the file system and the fuel, [main] only
    appends to standard output: what was printed stays printed. *)
Lemma main_appends
      (fs : filesystem) (fuel : nat) (argv : list string) (w : world) :
  exists ls, snd (main fs fuel argv w) = emit_all w ls.
Proof.
  destruct (Nat.eq_dec (length argv) 2) as [E|NE].
  - destruct argv as [|prog [|path [|x rest]]]; try discriminate E.
    rewrite main_one_path.
    destruct (fs path) as [data| |] eqn:Hfs.
    + rewrite (print_u32_values_file _ _ _ _ _ Hfs).
      destruct (read_loop_appends fuel (mkFile data 0) w) as [ls [H|H]];
        exists ls; now rewrite H.
    + rewrite (print_u32_values_missing _ _ _ _ Hfs).
      now exists [not_found_text path].
    + rewrite (print_u32_values_unopenable _ _ _ _ Hfs).
      exists []. cbn [snd]. now rewrite emit_all_nil.
  - rewrite (main_bad_argc _ _ _ _ NE).
    exists []. cbn [snd]. now rewrite emit_all_nil.
Qed.

(** C7 as stated (an error shows as one diagnostic line on the error
    stream and a failure status) fails on a file of one record and three
    bytes more: the diagnostic is on standard output, the error stream is
    empty and the status is 0. *)
Lemma diagnostic_on_stdout_status_zero :
  run_script 3 (single_file "a.idx" eleven_bytes) [script; "a.idx"]
  = Some (mkOutcome ["1 : 2"; "Incomplete chunk: b'\xaa\xbb\xcc'"] [] 0 None)
  /\ ~ (exists fuel o,
          run_script fuel (single_file "a.idx" eleven_bytes)
                     [script; "a.idx"] = Some o
          /\ (out_stderr o <> [] \/ out_status o <> 0%N)).
Proof.
  split; [reflexivity|].
  intros (fuel & o & Hrun & Hbad).
  destruct (Nat.lt_ge_cases fuel (iterations eleven_bytes)) as [Hlt|Hge].
  - rewrite (run_script_file_running _ fuel script "a.idx" eleven_bytes
               eq_refl Hlt) in Hrun.
    discriminate Hrun.
  - rewrite (run_script_file _ fuel script "a.idx" eleven_bytes eq_refl Hge)
      in Hrun.
    injection Hrun as <-. cbn in Hbad. destruct Hbad as [H|H]; now apply H.
Qed.

(** C7, amended.  When the one argument names a regular file or a path
    that does not exist, no exception leaves the program: the run ends
    with status 0 and an empty error stream, and its standard output is
    the record lines followed by at most one diagnostic line (the
    file-not-found message or the incomplete-chunk line).  In every run
    the output is only appended to, so lines already printed stay. *)
Theorem errors_reported_on_stdout
        (fs : filesystem) (fuel : nat) (prog path : string) :
  fs path <> Unopenable ->
  (forall data, fs path = RegularFile data -> iterations data <= fuel) ->
  (exists o records diag,
      run_script fuel fs [prog; path] = Some o
      /\ out_uncaught o = None
      /\ out_stderr o = []
      /\ out_status o = 0%N
      /\ out_stdout o = records ++ diag
      /\ length diag <= 1
      /\ (forall l, In l records -> exists a b, l = record_text a b)
      /\ (forall l, In l diag ->
                    l = not_found_text path
                    \/ exists chunk, l = incomplete_text chunk))
  /\ (forall (fuel' : nat) (argv : list string) (w : world),
        exists ls,
          w_stdout (snd (main fs fuel' argv w)) = w_stdout w ++ ls).
Proof.
  intros Hopen Hfuel. split.
  - destruct (fs path) as [data| |] eqn:Hfs.
    + exists (mkOutcome
                (record_lines data (length data / 8) ++ tail_lines data)
                [] 0 None),
             (record_lines data (length data / 8)), (tail_lines data).
      split; [apply (run_script_file fs fuel prog path data Hfs); auto|].
      cbn [out_stdout out_stderr out_status out_uncaught].
      repeat split.
      * unfold tail_lines. destruct (Nat.eqb _ _); cbn; lia.
      * intros l Hl. unfold record_lines in Hl.
        apply in_map_iff in Hl as (k & <- & _).
        unfold record_line. eauto.
      * intros l Hl. right. unfold tail_lines in Hl.
        destruct (Nat.eqb _ _); [destruct Hl|].
        destruct Hl as [<-|[]]. eauto.
    + exists (mkOutcome [not_found_text path] [] 0 None),
             [], [not_found_text path].
      split; [now apply run_script_missing|].
      cbn [out_stdout out_stderr out_status out_uncaught].
      repeat split; auto.
      * intros l [].
      * intros l [<-|[]]. now left.
    + contradiction.
  - intros fuel' argv w.
    destruct (main_appends fs fuel' argv w) as [ls H].
    exists ls. now rewrite H.
Qed.

Lemma errors_reported_on_stdout_witness :
  (exists o records diag,
      run_script 3 (single_file "a.idx" eleven_bytes) [script; "a.idx"]
      = Some o
      /\ out_uncaught o = None
      /\ out_stderr o = []
      /\ out_status o = 0%N
      /\ out_stdout o = records ++ diag
      /\ length diag <= 1
      /\ (forall l, In l records -> exists a b, l = record_text a b)
      /\ (forall l, In l diag ->
                    l = not_found_text "a.idx"
                    \/ exists chunk, l = incomplete_text chunk))
  /\ (forall (fuel' : nat) (argv : list string) (w : world),
        exists ls,
          w_stdout (snd (main (single_file "a.idx" eleven_bytes)
                              fuel' argv w))
          = w_stdout w ++ ls).
Proof.
  apply (errors_reported_on_stdout (single_file "a.idx" eleven_bytes) 3
                                   script "a.idx").
  - cbn. discriminate.
  - intros data H. cbn in H. injection H as <-. cbn. lia.
Defined.

(** C8.  On the empty file the run prints nothing and ends with status
    0. *)
Theorem empty_file_outcome
        (fs : filesystem) (fuel : nat) (prog path : string) :
  fs path = RegularFile [] ->
  1 <= fuel ->
  run_script fuel fs [prog; path] = Some (mkOutcome [] [] 0 None).
Proof.
  intros Hfs Hfuel.
  exact (run_script_file fs fuel prog path [] Hfs Hfuel).
Qed.

Lemma empty_file_outcome_witness :
  run_script 1 (single_file "empty.idx" []) [script; "empty.idx"]
  = Some (mkOutcome [] [] 0 None).
Proof.
  apply (empty_file_outcome (single_file "empty.idx" []) 1
                            script "empty.idx").
  - reflexivity.
  - lia.
Defined.

(** C9.  For a file of any length n, the run prints the lines of the
    first n/8 complete records, line [k] being that of record [k], none
    dropped and none twice; then at most one [Incomplete chunk] line
    follows, and only when n mod 8 is not zero.  The lines are stated
    twice: as the script computes them, and outright: n/8 lines, each the
    line of the specification for the little-endian values of its record,
    and, when n mod 8 is not zero, one more line, the text
    [Incomplete chunk: ] followed by the [repr] of the bytes after the
    last complete record. *)
Theorem any_file_lines
        (fs : filesystem) (fuel : nat) (prog path : string) (data : bytes) :
  fs path = RegularFile data ->
  iterations data <= fuel ->
  exists o,
    run_script fuel fs [prog; path] = Some o
    /\ out_stdout o = record_lines data (length data / 8) ++ tail_lines data
    /\ length (record_lines data (length data / 8)) = length data / 8
    /\ (forall k, k < length data / 8 ->
          nth_error (out_stdout o) k
          = Some (record_text (le_uint (slice data (8 * k) 4))
                              (le_uint (slice data (8 * k + 4) 4))))
    /\ length (tail_lines data) <= 1
    /\ (tail_lines data <> [] -> length data mod 8 <> 0)
    /\ (forall l, In l (tail_lines data) ->
                  l = incomplete_text (leftover data)
                  /\ forall a b, l <> record_text a b)
    /\ length (out_stdout o)
       = length data / 8 + (if Nat.eqb (length data mod 8) 0 then 0 else 1)
    /\ (forall k, k < length data / 8 ->
          exists l,
            nth_error (out_stdout o) k = Some l
            /\ is_spec_line l (spec_u32_le data (8 * k))
                              (spec_u32_le data (8 * k + 4)))
    /\ (length data mod 8 <> 0 ->
        nth_error (out_stdout o) (length data / 8)
        = Some ("Incomplete chunk: "
                  ++ bytes_repr (skipn (8 * (length data / 8)) data))%string).
Proof.
  intros Hfs Hfuel. eexists. split.
  - exact (run_script_file fs fuel prog path data Hfs Hfuel).
  - cbn [out_stdout].
    split; [reflexivity|]. split; [apply length_record_lines|].
    split; [|split; [|split; [|split; [|split; [|split]]]]].
    + intros k Hk. rewrite nth_error_app1
        by (rewrite length_record_lines; exact Hk).
      now rewrite nth_error_record_lines.
    + unfold tail_lines. destruct (Nat.eqb _ _); cbn; lia.
    + intros Hne Hmod. apply Hne. now apply tail_lines_aligned.
    + intros l Hl. unfold tail_lines in Hl.
      destruct (Nat.eqb _ _); [destruct Hl|].
      destruct Hl as [<-|[]]. split; [reflexivity|].
      intros a b E.
      now apply (record_text_not_incomplete a b (leftover data)).
    + rewrite length_app, length_record_lines. unfold tail_lines.
      now destruct (Nat.eqb (length data mod 8) 0).
    + intros k Hk. exists (record_line data k). split.
      * rewrite nth_error_app1 by (rewrite length_record_lines; exact Hk).
        now apply nth_error_record_lines.
      * destruct (div8_spec (length data)) as [E B].
        record_line_is_spec data k.
    + intros Hmod. rewrite (tail_lines_partial _ Hmod).
      rewrite nth_error_app2 by (rewrite length_record_lines; lia).
      rewrite length_record_lines, Nat.sub_diag. reflexivity.
Qed.

Lemma any_file_lines_witness :
  run_script 3 (single_file "a.idx" record_and_tail) [script; "a.idx"]
  = Some (mkOutcome ["1 : 2"; "Incomplete chunk: b'A\n\\\xff'"] [] 0 None)
  /\ run_script 2 (single_file "q.idx" [x27]) [script; "q.idx"]
     = Some (mkOutcome
               [("Incomplete chunk: b"
                   ++ String "034" (String "'" (String "034" EmptyString)))
                  %string]
               [] 0 None)
  /\ spec_u32_le record_and_tail 0 = 1%N
  /\ spec_u32_le record_and_tail 4 = 2%N
  /\ exists o,
      run_script 3 (single_file "a.idx" record_and_tail) [script; "a.idx"]
      = Some o
      /\ out_stdout o
         = record_lines record_and_tail (length record_and_tail / 8)
             ++ tail_lines record_and_tail
      /\ length (record_lines record_and_tail (length record_and_tail / 8))
         = length record_and_tail / 8
      /\ (forall k, k < length record_and_tail / 8 ->
            nth_error (out_stdout o) k
            = Some (record_text
                      (le_uint (slice record_and_tail (8 * k) 4))
                      (le_uint (slice record_and_tail (8 * k + 4) 4))))
      /\ length (tail_lines record_and_tail) <= 1
      /\ (tail_lines record_and_tail <> [] ->
          length record_and_tail mod 8 <> 0)
      /\ (forall l, In l (tail_lines record_and_tail) ->
                    l = incomplete_text (leftover record_and_tail)
                    /\ forall a b, l <> record_text a b)
      /\ length (out_stdout o)
         = length record_and_tail / 8
           + (if Nat.eqb (length record_and_tail mod 8) 0 then 0 else 1)
      /\ (forall k, k < length record_and_tail / 8 ->
            exists l,
              nth_error (out_stdout o) k = Some l
              /\ is_spec_line l (spec_u32_le record_and_tail (8 * k))
                                (spec_u32_le record_and_tail (8 * k + 4)))
      /\ (length record_and_tail mod 8 <> 0 ->
          nth_error (out_stdout o) (length record_and_tail / 8)
          = Some ("Incomplete chunk: "
                    ++ bytes_repr
                         (skipn (8 * (length record_and_tail / 8))
                                record_and_tail))%string).
Proof.
  split; [reflexivity|]. split; [reflexivity|].
  split; [reflexivity|]. split; [reflexivity|].
  apply (any_file_lines (single_file "a.idx" record_and_tail) 3
                        script "a.idx" record_and_tail).
  - reflexivity.
  - cbn. lia.
Defined.

(** C10.  The reader is deterministic: two runs on the same path, under
    file systems that hold the same thing at that path, end in the same
    outcome, whatever else the file systems hold, whatever the name of
    the program and however much fuel each run was given. *)
Theorem reader_deterministic
        (fs1 fs2 : filesystem) (fuel1 fuel2 : nat) (prog1 prog2 path : string)
        (o1 o2 : outcome) :
  fs1 path = fs2 path ->
  run_script fuel1 fs1 [prog1; path] = Some o1 ->
  run_script fuel2 fs2 [prog2; path] = Some o2 ->
  o1 = o2.
Proof.
  intros Hsame H1 H2.
  destruct (fs1 path) as [data| |] eqn:Hfs1; symmetry in Hsame.
  - destruct (Nat.lt_ge_cases fuel1 (iterations data)) as [L1|G1].
    { rewrite (run_script_file_running fs1 _ _ _ _ Hfs1 L1) in H1.
      discriminate H1. }
    destruct (Nat.lt_ge_cases fuel2 (iterations data)) as [L2|G2].
    { rewrite (run_script_file_running fs2 _ _ _ _ Hsame L2) in H2.
      discriminate H2. }
    rewrite (run_script_file fs1 _ _ _ _ Hfs1 G1) in H1.
    rewrite (run_script_file fs2 _ _ _ _ Hsame G2) in H2.
    congruence.
  - rewrite (run_script_missing fs1 _ _ _ Hfs1) in H1.
    rewrite (run_script_missing fs2 _ _ _ Hsame) in H2.
    congruence.
  - rewrite (run_script_unopenable fs1 _ _ _ Hfs1) in H1.
    rewrite (run_script_unopenable fs2 _ _ _ Hsame) in H2.
    congruence.
Qed.

Lemma reader_deterministic_witness :
  exists o1 o2,
    run_script 3 (single_file "a.idx" two_records) [script; "a.idx"]
    = Some o1
    /\ run_script 9
         (fun p => if String.eqb p "a.idx" then RegularFile two_records
                   else Unopenable)
         ["reader"; "a.idx"]
       = Some o2
    /\ o1 = o2.
Proof.
  eexists. eexists. split; [reflexivity|]. split; [reflexivity|].
  apply (reader_deterministic
           (single_file "a.idx" two_records)
           (fun p => if String.eqb p "a.idx" then RegularFile two_records
                     else Unopenable)
           3 9 script "reader" "a.idx").
  - reflexivity.
  - reflexivity.
  - reflexivity.
Defined.

(* ================================================================== *)
(** ** The diagnostic line shows its bytes *)
(* ================================================================== *)

Lemma append_assoc (a b c : string) :
  ((a ++ b) ++ c)%string = (a ++ (b ++ c))%string.
Proof. induction a as [|x a IH]; cbn; [reflexivity | now rewrite IH]. Qed.

Lemma append_nil_r (a : string) : (a ++ "")%string = a.
Proof. induction a as [|x a IH]; cbn; [reflexivity | now rewrite IH]. Qed.

Lemma repr_body_cons (quote : ascii) (c : byte) (bs : bytes) :
  repr_body quote (c :: bs)
  = (repr_byte quote c ++ repr_body quote bs)%string.
Proof.
  unfold repr_body. destruct bs as [|d bs]; cbn [map String.concat].
  - now rewrite append_nil_r.
  - reflexivity.
Qed.

Lemma bytes_repr_body (bs : bytes) :
  bytes_repr bs
  = String "b" (String (repr_quote bs)
                  (repr_body (repr_quote bs) bs
                     ++ String (repr_quote bs) EmptyString)).
Proof. reflexivity. Qed.

Lemma repr_quote_cases (bs : bytes) :
  repr_quote bs = squote \/ repr_quote bs = dquote.
Proof. unfold repr_quote. destruct (_ && _); auto. Qed.

(** One escape read back, with a single quote around the text. *)
Lemma repr_head_squote (c : byte) (rest : string) :
  repr_head squote (repr_byte squote c ++ rest) = Some (c, rest).
Proof. destruct c; reflexivity. Qed.

(** One escape read back, with a double quote around the text. *)
Lemma repr_head_dquote (c : byte) (rest : string) :
  repr_head dquote (repr_byte dquote c ++ rest) = Some (c, rest).
Proof. destruct c; reflexivity. Qed.

Lemma repr_head_repr_byte (quote : ascii) (c : byte) (rest : string) :
  quote = squote \/ quote = dquote ->
  repr_head quote (repr_byte quote c ++ rest) = Some (c, rest).
Proof.
  intros [-> | ->]; [apply repr_head_squote | apply repr_head_dquote].
Qed.

Lemma repr_head_closing (quote : ascii) :
  quote = squote \/ quote = dquote ->
  repr_head quote (String quote EmptyString) = None.
Proof. intros [-> | ->]; reflexivity. Qed.

(** Two bodies closed by the same quote are equal only for equal bytes. *)
Lemma repr_body_inj (quote : ascii) :
  quote = squote \/ quote = dquote ->
  forall bs1 bs2 : bytes,
    (repr_body quote bs1 ++ String quote EmptyString)%string
    = (repr_body quote bs2 ++ String quote EmptyString)%string ->
    bs1 = bs2.
Proof.
  intros Hq. induction bs1 as [|c1 bs1 IH]; intros [|c2 bs2] E.
  - reflexivity.
  - exfalso. apply (f_equal (repr_head quote)) in E.
    rewrite repr_body_cons, append_assoc in E.
    rewrite (repr_head_repr_byte _ _ _ Hq) in E.
    cbn [repr_body map String.concat append] in E.
    rewrite (repr_head_closing _ Hq) in E. discriminate E.
  - exfalso. apply (f_equal (repr_head quote)) in E.
    rewrite repr_body_cons, append_assoc in E.
    rewrite (repr_head_repr_byte _ _ _ Hq) in E.
    cbn [repr_body map String.concat append] in E.
    rewrite (repr_head_closing _ Hq) in E. discriminate E.
  - apply (f_equal (repr_head quote)) in E.
    rewrite !repr_body_cons, !append_assoc in E.
    rewrite !(repr_head_repr_byte _ _ _ Hq) in E.
    injection E as -> E. f_equal. now apply IH.
Qed.

Lemma bytes_repr_inj (bs1 bs2 : bytes) :
  bytes_repr bs1 = bytes_repr bs2 -> bs1 = bs2.
Proof.
  rewrite !bytes_repr_body. intros E. injection E as Eq E.
  rewrite <- Eq in E.
  exact (repr_body_inj _ (repr_quote_cases bs1) bs1 bs2 E).
Qed.

Lemma incomplete_text_inj (c1 c2 : bytes) :
  incomplete_text c1 = incomplete_text c2 -> c1 = c2.
Proof.
  unfold incomplete_text.
  remember (bytes_repr c1) as r1 eqn:E1.
  remember (bytes_repr c2) as r2 eqn:E2.
  cbn [append]. intros E. injection E as E. subst r1 r2.
  now apply bytes_repr_inj.
Qed.

(* ================================================================== *)
(** ** Encoding what was decoded *)
(* ================================================================== *)

Lemma byte_of_N_to_N (b : byte) (r : N) :
  byte_of_N (Byte.to_N b + 256 * r) = b.
Proof.
  unfold byte_of_N. pose proof (Byte.to_N_bounded b) as Hb.
  replace ((Byte.to_N b + 256 * r) mod 256)%N with (Byte.to_N b).
  - now rewrite Byte.of_to_N.
  - rewrite (N.mul_comm 256 r), N.Div0.mod_add.
    symmetry. apply N.mod_small. lia.
Qed.

Lemma le_bytes_le_uint (bs : bytes) : le_bytes (length bs) (le_uint bs) = bs.
Proof.
  induction bs as [|b bs IH]; [reflexivity|].
  cbn [length le_uint le_bytes]. rewrite byte_of_N_to_N. f_equal.
  pose proof (Byte.to_N_bounded b) as Hb.
  replace ((Byte.to_N b + 256 * le_uint bs) / 256)%N with (le_uint bs);
    [exact IH|].
  rewrite (N.mul_comm 256 (le_uint bs)), N.div_add by discriminate.
  now rewrite (N.div_small (Byte.to_N b)) by lia.
Qed.

Lemma le_uint_inj (bs1 bs2 : bytes) :
  length bs1 = length bs2 -> le_uint bs1 = le_uint bs2 -> bs1 = bs2.
Proof.
  intros Hl Hv. rewrite <- (le_bytes_le_uint bs1), <- (le_bytes_le_uint bs2).
  now rewrite Hl, Hv.
Qed.

Lemma le_uint_bound (bs : bytes) :
  (le_uint bs < 256 ^ N.of_nat (length bs))%N.
Proof.
  induction bs as [|b bs IH]; [cbn; lia|].
  cbn [length le_uint]. rewrite Nat2N.inj_succ, N.pow_succ_r'.
  pose proof (Byte.to_N_bounded b). lia.
Qed.

Lemma le_uint_u32 (bs : bytes) : length bs = 4 -> is_u32 (le_uint bs).
Proof.
  intros H. pose proof (le_uint_bound bs) as B. rewrite H in B. exact B.
Qed.

(* ================================================================== *)
(** ** Counting iterations and lines *)
(* ================================================================== *)

Lemma ceil8 (n : nat) :
  (n + 7) / 8 = n / 8 + (if Nat.eqb (n mod 8) 0 then 0 else 1).
Proof.
  destruct (div8_spec n) as [E B].
  destruct (Nat.eqb_spec (n mod 8) 0) as [Z|NZ].
  - destruct (div8_unique (n + 7) (n / 8) 7) as [Hq _]; lia.
  - destruct (div8_unique (n + 7) (n / 8 + 1) (n mod 8 - 1)) as [Hq _]; lia.
Qed.

Lemma iterations_ceil (data : bytes) :
  iterations data = (length data + 7) / 8 + 1.
Proof. unfold iterations. now rewrite ceil8. Qed.

Lemma length_tail_lines (data : bytes) :
  length (tail_lines data)
  = if Nat.eqb (length data mod 8) 0 then 0 else 1.
Proof. unfold tail_lines. now destruct (Nat.eqb _ _). Qed.

Lemma iterations_le (d1 d2 : bytes) :
  length d1 <= length d2 -> iterations d1 <= iterations d2.
Proof.
  intros H. rewrite !iterations_ceil.
  apply Nat.add_le_mono_r, Nat.Div0.div_le_mono. lia.
Qed.

Lemma iterations_mono (data extra : bytes) :
  iterations data <= iterations (data ++ extra).
Proof. apply iterations_le. rewrite length_app. lia. Qed.

(** X1.  The reader terminates on every regular file: the loop makes one
    iteration per chunk read, complete or partial, and one more for the
    empty read, that is ceil(n/8) + 1 for a file of n bytes; a run ends
    exactly when it is allowed that many iterations. *)
Theorem reader_terminates
        (fs : filesystem) (fuel : nat) (prog path : string) (data : bytes) :
  fs path = RegularFile data ->
  (run_script fuel fs [prog; path] <> None
   <-> (length data + 7) / 8 + 1 <= fuel).
Proof.
  intros Hfs. rewrite <- iterations_ceil. split.
  - intros Hrun.
    destruct (Nat.lt_ge_cases fuel (iterations data)) as [Hlt|Hge];
      [|exact Hge].
    now rewrite (run_script_file_running fs _ _ _ _ Hfs Hlt) in Hrun.
  - intros Hge. now rewrite (run_script_file fs _ _ _ _ Hfs Hge).
Qed.

Lemma reader_terminates_witness :
  run_script 3 (single_file "a.idx" eleven_bytes) [script; "a.idx"] <> None
  <-> (length eleven_bytes + 7) / 8 + 1 <= 3.
Proof.
  apply (reader_terminates (single_file "a.idx" eleven_bytes) 3
                           script "a.idx" eleven_bytes).
  reflexivity.
Defined.

(** X2.  The number of lines printed for a regular file of n bytes is
    ceil(n/8): one per chunk the loop reads, complete or partial. *)
Theorem line_count
        (fs : filesystem) (fuel : nat) (prog path : string) (data : bytes) :
  fs path = RegularFile data ->
  iterations data <= fuel ->
  exists o,
    run_script fuel fs [prog; path] = Some o
    /\ length (out_stdout o) = (length data + 7) / 8.
Proof.
  intros Hfs Hfuel. eexists. split.
  - exact (run_script_file fs fuel prog path data Hfs Hfuel).
  - cbn [out_stdout].
    now rewrite length_app, length_record_lines, length_tail_lines, ceil8.
Qed.

Lemma line_count_witness :
  exists o,
    run_script 3 (single_file "a.idx" eleven_bytes) [script; "a.idx"]
    = Some o
    /\ length (out_stdout o) = (length eleven_bytes + 7) / 8.
Proof.
  apply (line_count (single_file "a.idx" eleven_bytes) 3
                    script "a.idx" eleven_bytes).
  - reflexivity.
  - cbn. lia.
Defined.

(** X3.  Every number on a record line is an unsigned 32-bit value: line
    [k] shows two integers below 2^32, whatever the bytes of the file. *)
Theorem printed_values_are_u32
        (fs : filesystem) (fuel : nat) (prog path : string) (data : bytes)
        (k : nat) :
  fs path = RegularFile data ->
  iterations data <= fuel ->
  k < length data / 8 ->
  exists o a b,
    run_script fuel fs [prog; path] = Some o
    /\ nth_error (out_stdout o) k = Some (record_text a b)
    /\ is_u32 a /\ is_u32 b.
Proof.
  intros Hfs Hfuel Hk. destruct (div8_spec (length data)) as [E B].
  exists (mkOutcome (record_lines data (length data / 8) ++ tail_lines data)
                    [] 0 None),
         (le_uint (slice data (8 * k) 4)),
         (le_uint (slice data (8 * k + 4) 4)).
  split; [exact (run_script_file fs fuel prog path data Hfs Hfuel)|].
  cbn [out_stdout]. split.
  - rewrite nth_error_app1 by (rewrite length_record_lines; exact Hk).
    now rewrite nth_error_record_lines.
  - split; apply le_uint_u32, slice_length; lia.
Qed.

Lemma printed_values_are_u32_witness :
  exists o a b,
    run_script 3 (single_file "a.idx" two_records) [script; "a.idx"]
    = Some o
    /\ nth_error (out_stdout o) 1 = Some (record_text a b)
    /\ is_u32 a /\ is_u32 b.
Proof.
  apply (printed_values_are_u32 (single_file "a.idx" two_records) 3
                                script "a.idx" two_records 1).
  - reflexivity.
  - cbn. lia.
  - cbn. lia.
Defined.

(* ================================================================== *)
(** ** Files put one after the other *)
(* ================================================================== *)

Lemma slice_app_left (a b : bytes) (p n : nat) :
  p + n <= length a -> slice (a ++ b) p n = slice a p n.
Proof.
  intros H. unfold slice. rewrite skipn_app, firstn_app, length_skipn.
  replace (p - length a) with 0 by lia.
  replace (n - (length a - p)) with 0 by lia.
  cbn [skipn firstn]. apply app_nil_r.
Qed.

Lemma slice_app_right (a b : bytes) (p n : nat) :
  slice (a ++ b) (length a + p) n = slice b p n.
Proof.
  unfold slice. rewrite skipn_app, skipn_all2 by lia.
  now replace (length a + p - length a) with p by lia.
Qed.

Lemma record_line_app_left (a b : bytes) (k : nat) :
  8 * k + 8 <= length a -> record_line (a ++ b) k = record_line a k.
Proof.
  intros H. unfold record_line. now rewrite !slice_app_left by lia.
Qed.

Lemma record_line_app_right (a b : bytes) (q j : nat) :
  length a = 8 * q -> record_line (a ++ b) (q + j) = record_line b j.
Proof.
  intros H. unfold record_line.
  replace (8 * (q + j)) with (length a + 8 * j) by lia.
  replace (length a + 8 * j + 4) with (length a + (8 * j + 4)) by lia.
  now rewrite !slice_app_right.
Qed.

Lemma map_seq_shift {A} (f g : nat -> A) (q n : nat) :
  (forall j, f (q + j) = g j) ->
  forall s, map f (seq (q + s) n) = map g (seq s n).
Proof.
  intros H. induction n as [|n IH]; intros s; [reflexivity|].
  cbn [seq map]. rewrite H. f_equal.
  rewrite <- IH. now rewrite Nat.add_succ_r.
Qed.

Lemma map_seq_below {A} (f g : nat -> A) (n : nat) :
  (forall k, k < n -> f k = g k) -> map f (seq 0 n) = map g (seq 0 n).
Proof.
  intros H. apply map_ext_in. intros k Hk. apply in_seq in Hk.
  apply H. lia.
Qed.

(** The lines of a file made of whole records followed by another file. *)
Lemma output_app (a b : bytes) :
  length a mod 8 = 0 ->
  record_lines (a ++ b) (length (a ++ b) / 8) ++ tail_lines (a ++ b)
  = record_lines a (length a / 8)
      ++ (record_lines b (length b / 8) ++ tail_lines b).
Proof.
  intros Ha.
  destruct (div8_spec (length a)) as [Ea _].
  destruct (div8_spec (length b)) as [Eb Bb].
  rewrite Ha, Nat.add_0_r in Ea.
  destruct (div8_unique (length (a ++ b)) (length a / 8 + length b / 8)
                        (length b mod 8)) as [Hq Hr];
    [rewrite length_app; lia | exact Bb |].
  rewrite Hq. unfold record_lines at 1.
  rewrite seq_app, map_app, <- app_assoc. f_equal.
  - apply map_seq_below. intros k Hk. apply record_line_app_left. lia.
  - f_equal.
    + unfold record_lines.
      change (0 + length a / 8) with (length a / 8).
      rewrite <- (Nat.add_0_r (length a / 8)) at 1.
      apply map_seq_shift. intros j. now apply record_line_app_right.
    + unfold tail_lines, leftover. rewrite Hr, Hq.
      replace (8 * (length a / 8 + length b / 8))
        with (length a + 8 * (length b / 8)) by lia.
      rewrite skipn_app, skipn_all2 by lia.
      now replace (length a + 8 * (length b / 8) - length a)
        with (8 * (length b / 8)) by lia.
Qed.

(** X4.  A file of whole records followed by any other bytes prints the
    lines of the first part and then the lines the second part prints on
    its own. *)
Theorem output_of_concatenation
        (fs : filesystem) (fuel : nat) (prog : string)
        (pa pb pab : string) (a b : bytes) :
  fs pa = RegularFile a ->
  fs pb = RegularFile b ->
  fs pab = RegularFile (a ++ b) ->
  length a mod 8 = 0 ->
  iterations (a ++ b) <= fuel ->
  exists oa ob oab,
    run_script fuel fs [prog; pa] = Some oa
    /\ run_script fuel fs [prog; pb] = Some ob
    /\ run_script fuel fs [prog; pab] = Some oab
    /\ out_stdout oab = out_stdout oa ++ out_stdout ob.
Proof.
  intros Hpa Hpb Hpab Ha Hab.
  pose proof (iterations_mono a b) as Hma.
  assert (Hmb : iterations b <= iterations (a ++ b))
    by (apply iterations_le; rewrite length_app; lia).
  do 3 eexists. split; [|split; [|split]].
  - apply (run_script_file fs fuel prog pa a Hpa). lia.
  - apply (run_script_file fs fuel prog pb b Hpb). lia.
  - exact (run_script_file fs fuel prog pab (a ++ b) Hpab Hab).
  - cbn [out_stdout]. rewrite (output_app a b Ha).
    now rewrite (tail_lines_aligned a Ha), app_nil_r.
Qed.

Lemma output_of_concatenation_witness :
  exists oa ob oab,
    run_script 5
      (fun p => if String.eqb p "a" then RegularFile two_records
                else if String.eqb p "b" then RegularFile eleven_bytes
                else RegularFile (two_records ++ eleven_bytes))
      [script; "a"] = Some oa
    /\ run_script 5
      (fun p => if String.eqb p "a" then RegularFile two_records
                else if String.eqb p "b" then RegularFile eleven_bytes
                else RegularFile (two_records ++ eleven_bytes))
      [script; "b"] = Some ob
    /\ run_script 5
      (fun p => if String.eqb p "a" then RegularFile two_records
                else if String.eqb p "b" then RegularFile eleven_bytes
                else RegularFile (two_records ++ eleven_bytes))
      [script; "ab"] = Some oab
    /\ out_stdout oab = out_stdout oa ++ out_stdout ob.
Proof.
  apply (output_of_concatenation
           (fun p => if String.eqb p "a" then RegularFile two_records
                     else if String.eqb p "b" then RegularFile eleven_bytes
                     else RegularFile (two_records ++ eleven_bytes))
           5 script "a" "b" "ab" two_records eleven_bytes).
  - reflexivity.
  - reflexivity.
  - reflexivity.
  - reflexivity.
  - cbn. lia.
Defined.

(** X5.  Bytes appended to a file leave the lines of its complete records
    as they were: line [k] of the longer file is line [k] of the file, for
    every complete record [k] of the file. *)
Theorem appended_bytes_keep_lines
        (fs : filesystem) (fuel : nat) (prog p1 p2 : string)
        (data extra : bytes) :
  fs p1 = RegularFile data ->
  fs p2 = RegularFile (data ++ extra) ->
  iterations (data ++ extra) <= fuel ->
  exists o1 o2,
    run_script fuel fs [prog; p1] = Some o1
    /\ run_script fuel fs [prog; p2] = Some o2
    /\ forall k, k < length data / 8 ->
         nth_error (out_stdout o2) k = nth_error (out_stdout o1) k.
Proof.
  intros H1 H2 Hfuel.
  pose proof (iterations_mono data extra) as Hmono.
  do 2 eexists. split; [|split].
  - apply (run_script_file fs fuel prog p1 data H1). lia.
  - exact (run_script_file fs fuel prog p2 (data ++ extra) H2 Hfuel).
  - intros k Hk. cbn [out_stdout].
    destruct (div8_spec (length data)) as [E B].
    assert (Hle : length data / 8 <= length (data ++ extra) / 8).
    { apply Nat.Div0.div_le_mono. rewrite length_app. lia. }
    rewrite !nth_error_app1 by (rewrite length_record_lines; lia).
    rewrite !nth_error_record_lines by lia.
    f_equal. apply record_line_app_left. lia.
Qed.

Lemma appended_bytes_keep_lines_witness :
  exists o1 o2,
    run_script 4
      (fun p => if String.eqb p "old" then RegularFile eleven_bytes
                else RegularFile (eleven_bytes ++ five_bytes))
      [script; "old"] = Some o1
    /\ run_script 4
      (fun p => if String.eqb p "old" then RegularFile eleven_bytes
                else RegularFile (eleven_bytes ++ five_bytes))
      [script; "new"] = Some o2
    /\ forall k, k < length eleven_bytes / 8 ->
         nth_error (out_stdout o2) k = nth_error (out_stdout o1) k.
Proof.
  apply (appended_bytes_keep_lines
           (fun p => if String.eqb p "old" then RegularFile eleven_bytes
                     else RegularFile (eleven_bytes ++ five_bytes))
           4 script "old" "new" eleven_bytes five_bytes).
  - reflexivity.
  - reflexivity.
  - cbn. lia.
Defined.

(* ================================================================== *)
(** ** Every line is one line of printable text *)
(* ================================================================== *)

Lemma printable_app (a b : string) :
  printable (a ++ b) = printable a && printable b.
Proof.
  induction a as [|c a IH]; [reflexivity|].
  cbn [append printable]. rewrite IH. now rewrite andb_assoc.
Qed.

Lemma printable_string_of_uint (d : Decimal.uint) :
  printable (NilEmpty.string_of_uint d) = true.
Proof. induction d; cbn; assumption || reflexivity. Qed.

Lemma printable_record_text (a b : N) : printable (record_text a b) = true.
Proof.
  unfold record_text, str_of_int.
  now rewrite !printable_app, !printable_string_of_uint.
Qed.

Lemma printable_repr_byte (quote : ascii) (c : byte) :
  quote = squote \/ quote = dquote -> printable (repr_byte quote c) = true.
Proof. intros [-> | ->]; destruct c; reflexivity. Qed.

Lemma printable_repr_body (quote : ascii) (bs : bytes) :
  quote = squote \/ quote = dquote -> printable (repr_body quote bs) = true.
Proof.
  intros Hq. induction bs as [|c bs IH]; [reflexivity|].
  now rewrite repr_body_cons, printable_app, printable_repr_byte, IH.
Qed.

Lemma printable_bytes_repr (bs : bytes) : printable (bytes_repr bs) = true.
Proof.
  rewrite bytes_repr_body.
  pose proof (repr_quote_cases bs) as Hq.
  pose proof (printable_repr_body _ bs Hq) as Hb.
  cbn [printable]. rewrite printable_app, Hb.
  destruct Hq as [-> | ->]; reflexivity.
Qed.

Lemma printable_incomplete_text (chunk : bytes) :
  printable (incomplete_text chunk) = true.
Proof.
  unfold incomplete_text.
  now rewrite !printable_app, printable_bytes_repr.
Qed.

(** X6.  On a regular file every text the reader prints is printable
    ASCII, whatever the bytes of the file: a partial chunk is shown with
    its control and high bytes escaped, so no text holds a newline and
    each [print] is one line of output. *)
Theorem printed_lines_are_printable
        (fs : filesystem) (fuel : nat) (prog path : string) (data : bytes) :
  fs path = RegularFile data ->
  iterations data <= fuel ->
  exists o,
    run_script fuel fs [prog; path] = Some o
    /\ forall l, In l (out_stdout o) -> printable l = true.
Proof.
  intros Hfs Hfuel. eexists. split.
  - exact (run_script_file fs fuel prog path data Hfs Hfuel).
  - cbn [out_stdout]. intros l Hl. apply in_app_or in Hl as [Hl|Hl].
    + unfold record_lines in Hl. apply in_map_iff in Hl as (k & <- & _).
      apply printable_record_text.
    + unfold tail_lines in Hl. destruct (Nat.eqb _ _); [destruct Hl|].
      destruct Hl as [<-|[]]. apply printable_incomplete_text.
Qed.

Lemma printed_lines_are_printable_witness :
  exists o,
    run_script 2 (single_file "a.idx" [x0a; x27; x22; x5c; xff])
               [script; "a.idx"] = Some o
    /\ forall l, In l (out_stdout o) -> printable l = true.
Proof.
  apply (printed_lines_are_printable
           (single_file "a.idx" [x0a; x27; x22; x5c; xff]) 2
           script "a.idx" [x0a; x27; x22; x5c; xff]).
  - reflexivity.
  - cbn. lia.
Defined.

(* ================================================================== *)
(** ** The output tells the file *)
(* ================================================================== *)

(** Two lists of record lines, each followed by other lines, that are
    equal as a whole are equal part by part. *)
Lemma split_by_kind {A} (P : A -> Prop) (l1 : list A) :
  forall l2 t1 t2,
    (forall x, In x l1 -> P x) -> (forall x, In x l2 -> P x) ->
    (forall x, In x t1 -> ~ P x) -> (forall x, In x t2 -> ~ P x) ->
    l1 ++ t1 = l2 ++ t2 ->
    l1 = l2 /\ t1 = t2.
Proof.
  induction l1 as [|x l1 IH]; intros [|y l2] t1 t2 H1 H2 N1 N2 E;
    cbn [app] in E.
  - now split.
  - exfalso. apply (N1 y); [rewrite E; now left | apply H2; now left].
  - exfalso. apply (N2 x); [rewrite <- E; now left | apply H1; now left].
  - injection E as -> E.
    destruct (IH l2 t1 t2) as [-> ->]; auto.
    + intros z Hz. apply H1. now right.
    + intros z Hz. apply H2. now right.
Qed.

Lemma record_lines_are_records (data : bytes) (n : nat) (l : string) :
  In l (record_lines data n) -> is_record_text l.
Proof.
  unfold record_lines. intros H. apply in_map_iff in H as (k & <- & _).
  unfold record_line, is_record_text. eauto.
Qed.

Lemma tail_lines_are_not_records (data : bytes) (l : string) :
  In l (tail_lines data) -> ~ is_record_text l.
Proof.
  unfold tail_lines. destruct (Nat.eqb _ _); [intros []|].
  intros [<-|[]] (a & b & E).
  now apply (record_text_not_incomplete a b (leftover data)).
Qed.

Lemma slice_split (data : bytes) (p : nat) :
  slice data p 8 = slice data p 4 ++ slice data (p + 4) 4.
Proof.
  rewrite <- (firstn_skipn 4 (slice data p 8)).
  now rewrite slice_low, slice_high.
Qed.

Lemma firstn_add_slice (data : bytes) (p n : nat) :
  firstn (p + n) data = firstn p data ++ slice data p n.
Proof.
  unfold slice. revert data. induction p as [|p IH]; intros data.
  - reflexivity.
  - destruct data as [|x data].
    + cbn [skipn]. now rewrite !firstn_nil.
    + cbn [Nat.add firstn skipn app]. now rewrite IH.
Qed.

(** A record line tells the 8 bytes of its record. *)
Lemma record_line_inj (d1 d2 : bytes) (k : nat) :
  8 * k + 8 <= length d1 -> 8 * k + 8 <= length d2 ->
  record_line d1 k = record_line d2 k ->
  slice d1 (8 * k) 8 = slice d2 (8 * k) 8.
Proof.
  intros H1 H2 E. unfold record_line in E.
  apply record_text_inj in E as [Ea Eb].
  rewrite !slice_split. f_equal.
  - apply le_uint_inj; [now rewrite !slice_length by lia | exact Ea].
  - apply le_uint_inj; [now rewrite !slice_length by lia | exact Eb].
Qed.

Lemma records_tell_prefix (d1 d2 : bytes) (q : nat) :
  8 * q <= length d1 -> 8 * q <= length d2 ->
  (forall k, k < q -> record_line d1 k = record_line d2 k) ->
  firstn (8 * q) d1 = firstn (8 * q) d2.
Proof.
  induction q as [|q IH]; intros H1 H2 E; [reflexivity|].
  replace (8 * S q) with (8 * q + 8) by lia.
  rewrite !firstn_add_slice. f_equal.
  - apply IH; try lia. intros k Hk. apply E. lia.
  - apply record_line_inj; try lia. apply E. lia.
Qed.

(** The lines printed for a file tell its bytes. *)
Lemma output_inj (d1 d2 : bytes) :
  record_lines d1 (length d1 / 8) ++ tail_lines d1
  = record_lines d2 (length d2 / 8) ++ tail_lines d2 ->
  d1 = d2.
Proof.
  intros E.
  apply (split_by_kind is_record_text) in E as [Er Et];
    try (intros x; apply record_lines_are_records);
    try (intros x; apply tail_lines_are_not_records).
  assert (Hq : length d1 / 8 = length d2 / 8).
  { rewrite <- (length_record_lines d1 (length d1 / 8)), Er.
    apply length_record_lines. }
  destruct (div8_spec (length d1)) as [E1 B1].
  destruct (div8_spec (length d2)) as [E2 B2].
  assert (Hpre : firstn (8 * (length d1 / 8)) d1
                 = firstn (8 * (length d1 / 8)) d2).
  { apply records_tell_prefix; try lia. intros k Hk.
    assert (Hn : nth_error (record_lines d1 (length d1 / 8)) k
                 = nth_error (record_lines d2 (length d2 / 8)) k)
      by now rewrite Er.
    rewrite !nth_error_record_lines in Hn by lia.
    now injection Hn. }
  assert (Hleft : leftover d1 = leftover d2).
  { pose proof (length_leftover d1) as L1.
    pose proof (length_leftover d2) as L2.
    unfold tail_lines in Et.
    destruct (Nat.eqb_spec (length d1 mod 8) 0) as [Z1|N1];
      destruct (Nat.eqb_spec (length d2 mod 8) 0) as [Z2|N2];
      try discriminate Et.
    - rewrite Z1 in L1. rewrite Z2 in L2.
      apply length_zero_iff_nil in L1, L2. congruence.
    - apply incomplete_text_inj. congruence. }
  transitivity (firstn (8 * (length d1 / 8)) d1 ++ leftover d1);
    [symmetry; apply firstn_skipn|].
  rewrite Hpre, Hleft. unfold leftover. rewrite Hq. apply firstn_skipn.
Qed.

(** X7.  The printout is a faithful dump: two regular files on which the
    reader prints the same lines hold the same bytes.  The record lines
    tell the bytes of the complete records and the diagnostic tells the
    bytes of the partial chunk. *)
Theorem output_determines_file
        (fs1 fs2 : filesystem) (fuel1 fuel2 : nat)
        (prog1 prog2 path1 path2 : string) (d1 d2 : bytes)
        (o1 o2 : outcome) :
  fs1 path1 = RegularFile d1 ->
  fs2 path2 = RegularFile d2 ->
  run_script fuel1 fs1 [prog1; path1] = Some o1 ->
  run_script fuel2 fs2 [prog2; path2] = Some o2 ->
  out_stdout o1 = out_stdout o2 ->
  d1 = d2.
Proof.
  intros Hfs1 Hfs2 H1 H2 E.
  destruct (Nat.lt_ge_cases fuel1 (iterations d1)) as [L1|G1].
  { rewrite (run_script_file_running fs1 _ _ _ _ Hfs1 L1) in H1.
    discriminate H1. }
  destruct (Nat.lt_ge_cases fuel2 (iterations d2)) as [L2|G2].
  { rewrite (run_script_file_running fs2 _ _ _ _ Hfs2 L2) in H2.
    discriminate H2. }
  rewrite (run_script_file fs1 _ _ _ _ Hfs1 G1) in H1.
  rewrite (run_script_file fs2 _ _ _ _ Hfs2 G2) in H2.
  injection H1 as <-. injection H2 as <-. cbn [out_stdout] in E.
  now apply output_inj.
Qed.

Lemma output_determines_file_witness :
  eleven_bytes = encode_records [(1, 2)%N] ++ [xaa; xbb; xcc].
Proof.
  apply (output_determines_file
           (single_file "a.idx" eleven_bytes)
           (single_file "b.idx"
                        (encode_records [(1, 2)%N] ++ [xaa; xbb; xcc]))
           3 4 script script "a.idx" "b.idx"
           eleven_bytes (encode_records [(1, 2)%N] ++ [xaa; xbb; xcc])
           (mkOutcome ["1 : 2"; "Incomplete chunk: b'\xaa\xbb\xcc'"]
                      [] 0 None)
           (mkOutcome ["1 : 2"; "Incomplete chunk: b'\xaa\xbb\xcc'"]
                      [] 0 None)).
  - reflexivity.
  - reflexivity.
  - reflexivity.
  - reflexivity.
  - reflexivity.
Defined.

(* ================================================================== *)
(** ** The argument count and the exit status *)
(* ================================================================== *)

Lemma record_text_not_usage (a b : N) :
  record_text a b <> "Usage: {script_name} <file_name>".
Proof.
  unfold record_text, str_of_int.
  destruct (N.to_uint a); cbn; discriminate.
Qed.

Lemma incomplete_text_not_usage (chunk : bytes) :
  incomplete_text chunk <> "Usage: {script_name} <file_name>".
Proof.
  unfold incomplete_text. remember (bytes_repr chunk) as r.
  cbn [append]. discriminate.
Qed.

Lemma not_found_text_not_usage (path : string) :
  not_found_text path <> "Usage: {script_name} <file_name>".
Proof. unfold not_found_text. cbn [append]. discriminate. Qed.

(** X8.  With any number of arguments other than exactly one path, the
    run ends in the uncaught [NameError] for [os] with status 1 and
    nothing on standard output, the same under every file system and for
    every fuel: no file is opened. *)
Theorem wrong_argument_count_general
        (fuel : nat) (fs : filesystem) (argv : list string) :
  length argv <> 2 ->
  run_script fuel fs argv
  = Some (mkOutcome [] [traceback (NameError "os")] 1
                    (Some (NameError "os"))).
Proof.
  intros H. unfold run_script. now rewrite (main_bad_argc _ _ _ _ H).
Qed.

Lemma wrong_argument_count_general_witness :
  run_script 0 (fun _ => Unopenable) [script; "a"; "b"; "c"]
  = Some (mkOutcome [] [traceback (NameError "os")] 1
                    (Some (NameError "os"))).
Proof.
  apply (wrong_argument_count_general 0 (fun _ => Unopenable)
                                      [script; "a"; "b"; "c"]).
  cbn. discriminate.
Defined.

(** X9.  In no run is the usage text printed, and [sys.exit(1)] is never
    reached: a run that ends has status 0 with no exception left, or
    status 1 from an uncaught exception. *)
Theorem usage_never_printed
        (fuel : nat) (fs : filesystem) (argv : list string) (o : outcome) :
  run_script fuel fs argv = Some o ->
  ~ In "Usage: {script_name} <file_name>" (out_stdout o)
  /\ ((out_status o = 0%N /\ out_uncaught o = None)
      \/ (out_status o = 1%N /\ out_uncaught o <> None)).
Proof.
  intros Hrun.
  destruct (Nat.eq_dec (length argv) 2) as [E|NE].
  - destruct argv as [|prog [|path [|x rest]]]; try discriminate E.
    destruct (fs path) as [data| |] eqn:Hfs.
    + destruct (Nat.lt_ge_cases fuel (iterations data)) as [Hlt|Hge].
      { rewrite (run_script_file_running fs _ _ _ _ Hfs Hlt) in Hrun.
        discriminate Hrun. }
      rewrite (run_script_file fs _ _ _ _ Hfs Hge) in Hrun.
      injection Hrun as <-. cbn [out_stdout out_status out_uncaught].
      split; [|now left].
      intros Hin. apply in_app_or in Hin as [Hin|Hin].
      * apply record_lines_are_records in Hin as (a & b & Hab).
        symmetry in Hab. now apply (record_text_not_usage a b).
      * unfold tail_lines in Hin. destruct (Nat.eqb _ _); [destruct Hin|].
        destruct Hin as [Hin|[]].
        now apply (incomplete_text_not_usage (leftover data)).
    + rewrite (run_script_missing fs _ _ _ Hfs) in Hrun.
      injection Hrun as <-. cbn [out_stdout out_status out_uncaught].
      split; [|now left].
      intros [Hin|[]]. now apply (not_found_text_not_usage path).
    + rewrite (run_script_unopenable fs _ _ _ Hfs) in Hrun.
      injection Hrun as <-. cbn [out_stdout out_status out_uncaught].
      split; [intros [] | right; split; [reflexivity | discriminate]].
  - rewrite (run_script_bad_argc fs _ _ NE) in Hrun.
    injection Hrun as <-. cbn [out_stdout out_status out_uncaught].
    split; [intros [] | right; split; [reflexivity | discriminate]].
Qed.

Lemma usage_never_printed_witness :
  exists o,
    run_script 2 (single_file "a.idx" five_bytes) [script; "a.idx"] = Some o
    /\ ~ In "Usage: {script_name} <file_name>" (out_stdout o)
    /\ ((out_status o = 0%N /\ out_uncaught o = None)
        \/ (out_status o = 1%N /\ out_uncaught o <> None)).
Proof.
  eexists. split; [reflexivity|].
  apply (usage_never_printed 2 (single_file "a.idx" five_bytes)
                             [script; "a.idx"]).
  reflexivity.
Defined.

(** X10.  Decoding loses nothing: when a chunk unpacks to [(a, b)], both
    are unsigned 32-bit values and packing them gives the chunk back, so
    8-byte records and pairs of unsigned 32-bit integers correspond one
    to one. *)
Theorem unpack_then_pack (chunk : bytes) (a b : N) :
  unpack_II chunk = Some (a, b) ->
  pack_II a b = chunk /\ is_u32 a /\ is_u32 b.
Proof.
  unfold unpack_II.
  destruct (Nat.eqb_spec (length chunk) 8) as [L|_]; [|discriminate].
  intros E. injection E as <- <-.
  assert (L1 : length (firstn 4 chunk) = 4)
    by (rewrite length_firstn; lia).
  assert (L2 : length (skipn 4 chunk) = 4)
    by (rewrite length_skipn; lia).
  split; [|split; now apply le_uint_u32].
  unfold pack_II.
  rewrite <- L1 at 1. rewrite le_bytes_le_uint.
  rewrite <- L2 at 1. rewrite le_bytes_le_uint.
  exact (firstn_skipn 4 chunk).
Qed.

Lemma unpack_then_pack_witness :
  pack_II 4294967295 0 = [xff; xff; xff; xff; x00; x00; x00; x00]
  /\ is_u32 4294967295 /\ is_u32 0.
Proof.
  apply (unpack_then_pack [xff; xff; xff; xff; x00; x00; x00; x00]
                          4294967295 0).
  reflexivity.
Defined.
